(** * PineconeRerank: the document compressor of langchain_pinecone/reranker.py

    A shallow embedding of [PineconeRerank] and a verification of what its
    two entry points, [compress_documents] and [acompress_documents], do
    with the input documents, the remote rerank client and the metadata
    dictionaries.

    Python objects with identity (the metadata dictionaries and the lists
    nested in them) live in a store; a [Document] holds a reference to its
    metadata, so that copying and aliasing are visible.  The remote client
    is a function from the request to its outcome, and every request issued
    is logged in the state. *)

From stdpp Require Import base option list gmap fin_maps fin_sets strings.
From Stdlib Require Import ZArith QArith Qround.

Local Open Scope Z_scope.

(** ** Python values and the store *)

(** Python's [float] and its builtin [round(x, ndigits)] are not part of the
    repository: they are interfaces the development is parameterised by. *)
Class PyFloat := float : Type.
Class PyRound `{PyFloat} := py_round : float → Z → float.

Definition loc := positive.

Section Model.
Context `{PyFloat}.

Inductive val :=
  | VNone
  | VBool (b : bool)
  | VInt (n : Z)
  | VFloat (x : float)
  | VStr (s : string)
  | VRef (l : loc).

(** Mutable containers: [list] and [dict] (with string keys). *)
Inductive obj :=
  | OList (xs : list val)
  | ODict (d : gmap string val).

Definition list_append (a : val) (o : obj) : obj :=
  match o with
  | OList ys => OList (ys ++ [a])
  | ODict d => ODict d
  end.

Definition dict_put (k : string) (a : val) (o : obj) : obj :=
  match o with
  | ODict d => ODict (<[k := a]> d)
  | OList ys => OList ys
  end.

(** *** copy.deepcopy

    [copy.deepcopy(x, memo)] of the Python library: atomic values are
    returned as they are; a container already in [memo] is answered from it;
    otherwise an empty container is allocated and recorded in [memo] before
    its items are copied into it one at a time:
<<
      def _deepcopy_list(x, memo):          def _deepcopy_dict(x, memo):
          y = []                                y = {}
          memo[id(x)] = y                       memo[id(x)] = y
          for a in x:                           for key, value in x.items():
              y.append(deepcopy(a, memo))           y[deepcopy(key, memo)] = deepcopy(value, memo)
          return y                              return y
>>
    Keys are strings, which are their own copies.  The recursion depth is
    bounded by [fuel]; [deepcopy_rec_ok] shows that the number of objects in
    the store is always enough. *)

Definition copy_state : Type := gmap loc loc * gmap loc obj.

Fixpoint copy_loop {K} (rec : val → copy_state → option (val * copy_state))
    (y : loc) (put : K → val → obj → obj)
    (items : list (K * val)) (s : copy_state) : option copy_state :=
  match items with
  | [] => Some s
  | (k, a) :: rest =>
      match rec a s with
      | Some (a', (memo, h)) => copy_loop rec y put rest (memo, alter (put k a') y h)
      | None => None
      end
  end.

Fixpoint deepcopy_rec (fuel : nat) (x : val) (s : copy_state)
    : option (val * copy_state) :=
  match x with
  | VRef l =>
      match s.1 !! l with
      | Some y => Some (VRef y, s)
      | None =>
          match fuel with
          | O => None
          | S fuel' =>
              let y := fresh (dom s.2) in
              match s.2 !! l with
              | None => None
              | Some (OList xs) =>
                  s' ← copy_loop (deepcopy_rec fuel') y (λ _ : unit, list_append)
                         ((λ a, (tt, a)) <$> xs)
                         (<[l := y]> s.1, <[y := OList []]> s.2);
                  Some (VRef y, s')
              | Some (ODict d) =>
                  s' ← copy_loop (deepcopy_rec fuel') y dict_put
                         (map_to_list d)
                         (<[l := y]> s.1, <[y := ODict ∅]> s.2);
                  Some (VRef y, s')
              end
          end
      end
  | _ => Some (x, s)
  end.

(** ** Documents, requests and responses *)

(** [langchain_core.documents.Document]: a text payload and a reference to
    the metadata dictionary. *)
Record Document := { page_content : string; metadata : loc }.

Inductive str_or_doc :=
  | IsStr (s : string)
  | IsDoc (d : Document).

(** The keyword arguments of [client.inference.rerank]. *)
Record RerankRequest := {
  req_model : string;
  req_query : string;
  req_documents : list string;
  req_top_n : option Z;
  req_return_documents : bool;
  req_parameters : gmap string string
}.

Record RerankResult := { index : Z; score : float }.
Record RerankResponse := { data : list RerankResult }.

(** Exceptions.  [Stuck] is not a Python exception: it marks a dangling
    reference or exhausted fuel in the store model. *)
Inductive exn :=
  | IndexError
  | TypeError
  | ValidationError
  | OtherError (name : string)
  | Stuck.

Inductive result (A : Type) :=
  | Ok (a : A)
  | Raise (e : exn).
Global Arguments Ok {A} a.
Global Arguments Raise {A} e.

(** The remote client, as far as one call is concerned: the outcome of
    [client.inference.rerank] on a request, a response or an exception. *)
Definition Pinecone : Type := RerankRequest → result RerankResponse.

Record PineconeRerank := {
  client : Pinecone;
  model : string;
  top_n : option Z;
  truncation : string
}.

(** ** The state and its monad *)

Record state := {
  st_heap : gmap loc obj;
  st_self : PineconeRerank;
  st_calls : list RerankRequest
}.

Definition M (A : Type) : Type := state → result A * state.

Definition ret {A} (a : A) : M A := λ st, (Ok a, st).
Definition raise {A} (e : exn) : M A := λ st, (Raise e, st).
Definition bind {A B} (m : M A) (f : A → M B) : M B :=
  λ st, match m st with
        | (Ok a, st') => f a st'
        | (Raise e, st') => (Raise e, st')
        end.
Definition self : M PineconeRerank := λ st, (Ok (st_self st), st).

(** The operand of an [await] expression: a coroutine, as a call of an
    [async def] function makes, or an object that cannot be awaited. *)
Inductive awaited (A : Type) :=
  | Coroutine (m : M A)
  | NotAwaitable (a : A).
Global Arguments Coroutine {A} m.
Global Arguments NotAwaitable {A} a.

(** [await v]: a coroutine runs to its outcome (the model runs one task, so
    nothing interleaves); any other object raises [TypeError]. *)
Definition await {A} (v : awaited A) : M A :=
  match v with
  | Coroutine m => m
  | NotAwaitable _ => raise TypeError
  end.

End Model.

Notation "'do' x <- m ; k" := (bind m (λ x, k))
  (at level 10, x name, m at level 100, k at level 200,
   format "'[v' 'do'  x  <-  m ; '/' k ']'").
Notation "'run' m ; k" := (bind m (λ _, k))
  (at level 10, m at level 100, k at level 200,
   format "'[v' 'run'  m ; '/' k ']'").

Section Reranker.
Context `{PyRound}.

Definition set_heap (h : gmap loc obj) (st : state) : state :=
  {| st_heap := h; st_self := st_self st; st_calls := st_calls st |}.

(** ** Primitives used by the compressor *)

(** [xs[i]] on a Python sequence: a negative index counts from the end, and
    an index outside [-len(xs), len(xs))] raises [IndexError]. *)
Definition py_position (n : nat) (i : Z) : option nat :=
  let j := if i <? 0 then i + Z.of_nat n else i in
  if (0 <=? j) && (j <? Z.of_nat n) then Some (Z.to_nat j) else None.

Definition py_lookup {A} (xs : list A) (i : Z) : option A :=
  j ← py_position (length xs) i; xs !! j.

Definition py_getitem {A} (xs : list A) (i : Z) : M A :=
  match py_lookup xs i with
  | Some x => ret x
  | None => raise IndexError
  end.

(** [deepcopy(x)]: a fresh memo, and as much fuel as the store has objects. *)
Definition deepcopy (x : val) : M val :=
  λ st, match deepcopy_rec (size (st_heap st)) x (∅, st_heap st) with
        | Some (x', (_, h')) => (Ok x', set_heap h' st)
        | None => (Raise Stuck, st)
        end.

(** [Document(page_content, metadata=m)]: the metadata field is validated to
    be a dictionary, and the new document keeps a shallow copy of it: a new
    dictionary with the same items. *)
Definition Document_init (text : string) (m : val) : M Document :=
  λ st, match m with
        | VRef l =>
            match st_heap st !! l with
            | Some (ODict d) =>
                let y := fresh (dom (st_heap st)) in
                (Ok {| page_content := text; metadata := y |},
                 set_heap (<[y := ODict d]> (st_heap st)) st)
            | Some (OList _) => (Raise ValidationError, st)
            | None => (Raise Stuck, st)
            end
        | _ => (Raise ValidationError, st)
        end.

(** [d[k] = v] on the dictionary at [l]. *)
Definition dict_setitem (l : loc) (k : string) (v : val) : M unit :=
  λ st, match st_heap st !! l with
        | Some (ODict d) => (Ok tt, set_heap (<[l := ODict (<[k := v]> d)]> (st_heap st)) st)
        | Some (OList _) => (Raise TypeError, st)
        | None => (Raise Stuck, st)
        end.

(** [self.client.inference.rerank(...)]: the request is issued (logged) and
    the client's outcome, a response or an exception, is the call's. *)
Definition client_inference_rerank (req : RerankRequest) : M RerankResponse :=
  λ st, (client (st_self st) req,
         {| st_heap := st_heap st; st_self := st_self st;
            st_calls := st_calls st ++ [req] |}).

(** [for x in xs: acc = body(acc, x)] *)
Fixpoint for_each {A B} (xs : list A) (acc : B) (body : B → A → M B) : M B :=
  match xs with
  | [] => ret acc
  | x :: rest => do acc' <- body acc x; for_each rest acc' body
  end.

(** ** PineconeRerank *)

(** [doc.page_content if isinstance(doc, Document) else doc] *)
Definition text_of (doc : str_or_doc) : string :=
  match doc with
  | IsDoc d => page_content d
  | IsStr s => s
  end.

(** [_rerank], and [_arerank], which awaits the value of the same call.
    [client] is the synchronous [Pinecone] client: the value of its call is
    the response itself, which is no coroutine.
<<
      docs = [doc.page_content if isinstance(doc, Document) else doc
              for doc in documents]
      return self.client.inference.rerank(
          model=self.model, query=query, documents=docs, top_n=self.top_n,
          return_documents=True, parameters={"truncate": self.truncation})
>> *)
Definition _rerank (documents : list str_or_doc) (query : string) : M RerankResponse :=
  let docs := text_of <$> documents in
  do this <- self;
  client_inference_rerank
    {| req_model := model this;
       req_query := query;
       req_documents := docs;
       req_top_n := top_n this;
       req_return_documents := true;
       req_parameters := {[ "truncate" := truncation this ]} |}.

Definition _arerank (documents : list str_or_doc) (query : string) : M RerankResponse :=
  let docs := text_of <$> documents in
  do this <- self;
  do value <- client_inference_rerank
    {| req_model := model this;
       req_query := query;
       req_documents := docs;
       req_top_n := top_n this;
       req_return_documents := true;
       req_parameters := {[ "truncate" := truncation this ]} |};
  await (NotAwaitable value).

(** [compress_documents], and [acompress_documents], which awaits [_arerank]:
<<
      if len(documents) == 0:
          return []
      compressed = []
      results = self._rerank(documents, query)
      for res in results.data:
          doc = documents[res.index]
          doc_copy = Document(doc.page_content, metadata=deepcopy(doc.metadata))
          doc_copy.metadata["relevance_score"] = round(res.score, 4)
          compressed.append(doc_copy)
      return compressed
>> *)
Definition compress_documents (documents : list Document) (query : string)
    : M (list Document) :=
  if Z.of_nat (length documents) =? 0 then ret []
  else
    do results <- _rerank (IsDoc <$> documents) query;
    for_each (data results) [] (λ compressed res,
      do doc <- py_getitem documents (index res);
      do m <- deepcopy (VRef (metadata doc));
      do doc_copy <- Document_init (page_content doc) m;
      run dict_setitem (metadata doc_copy) "relevance_score"
            (VFloat (py_round (score res) 4));
      ret (compressed ++ [doc_copy])).

Definition acompress_documents (documents : list Document) (query : string)
    : M (list Document) :=
  if Z.of_nat (length documents) =? 0 then ret []
  else
    do results <- await (Coroutine (_arerank (IsDoc <$> documents) query));
    for_each (data results) [] (λ compressed res,
      do doc <- py_getitem documents (index res);
      do m <- deepcopy (VRef (metadata doc));
      do doc_copy <- Document_init (page_content doc) m;
      run dict_setitem (metadata doc_copy) "relevance_score"
            (VFloat (py_round (score res) 4));
      ret (compressed ++ [doc_copy])).

End Reranker.

(** ** Specification vocabulary *)

Section Predicates.
Context `{PyRound}.

(** *** Stores and copies *)

(** A store is closed when every reference in it points into it. *)
Definition val_in (D : gset loc) (v : val) : Prop :=
  match v with VRef l => l ∈ D | _ => True end.

Definition obj_has (o : obj) (v : val) : Prop :=
  match o with
  | OList xs => v ∈ xs
  | ODict d => ∃ k, d !! k = Some v
  end.

Definition closed (h : gmap loc obj) : Prop :=
  ∀ l o v, h !! l = Some o → obj_has o v → val_in (dom h) v.

(** [v'] is [v] with its reference renamed by [memo]; an object is copied
    when its items are; [memo] is a deep copy from [h0] into [h] when every
    object it maps is copied to a location outside [h0]. *)
Definition copied (memo : gmap loc loc) (v v' : val) : Prop :=
  match v with
  | VRef l => ∃ y, memo !! l = Some y ∧ v' = VRef y
  | _ => v' = v
  end.

Definition obj_copied (memo : gmap loc loc) (o o' : obj) : Prop :=
  match o, o' with
  | OList xs, OList ys => Forall2 (copied memo) xs ys
  | ODict d, ODict d' => ∀ k, option_Forall2 (copied memo) (d !! k) (d' !! k)
  | _, _ => False
  end.

Definition is_deepcopy (h0 h : gmap loc obj) (memo : gmap loc loc) : Prop :=
  ∀ l y, memo !! l = Some y →
    (y ∉ dom h0) ∧
    (∃ o o', h0 !! l = Some o ∧ h !! y = Some o' ∧ obj_copied memo o o').

Definition item_copied {K} (memo : gmap loc loc) (kv kv' : K * val) : Prop :=
  kv'.1 = kv.1 ∧ copied memo kv.2 kv'.2.

Definition puts {K} (put : K → val → obj → obj) (o : obj) (items : list (K * val)) : obj :=
  foldl (λ o kv, put kv.1 kv.2 o) o items.

(** What one call of [deepcopy_rec] establishes, from [(memo, h)] to [(memo', h')]. *)
Definition copy_post (h0 : gmap loc obj) (memo : gmap loc loc) (h : gmap loc obj)
    (memo' : gmap loc loc) (h' : gmap loc obj) : Prop :=
  memo ⊆ memo' ∧ dom memo' ⊆ dom h0 ∧
  ∀ l z, memo' !! l = Some z → memo !! l = None →
    (z ∉ dom h) ∧
    (∃ o o', h0 !! l = Some o ∧ h' !! z = Some o' ∧ obj_copied memo' o o').

Definition rec_ok (h0 : gmap loc obj) (fuel : nat) : Prop :=
  ∀ x memo h,
    h0 ⊆ h → dom memo ⊆ dom h0 → val_in (dom h0) x →
    (size (dom h0 ∖ dom memo) ≤ fuel)%nat →
    ∃ x' memo' h',
      deepcopy_rec fuel x (memo, h) = Some (x', (memo', h')) ∧
      h ⊆ h' ∧ copied memo' x x' ∧ copy_post h0 memo h memo' h'.

(** *** The compressor *)

(** The request [_rerank] builds for [documents] and [query]. *)
Definition rerank_request (this : PineconeRerank) (documents : list str_or_doc)
    (query : string) : RerankRequest :=
  {| req_model := model this;
     req_query := query;
     req_documents := text_of <$> documents;
     req_top_n := top_n this;
     req_return_documents := true;
     req_parameters := {[ "truncate" := truncation this ]} |}.

(** The body of the loop over [results.data]. *)
Definition copy_result (documents : list Document) (compressed : list Document)
    (res : RerankResult) : M (list Document) :=
  do doc <- py_getitem documents (index res);
  do m <- deepcopy (VRef (metadata doc));
  do doc_copy <- Document_init (page_content doc) m;
  run dict_setitem (metadata doc_copy) "relevance_score"
        (VFloat (py_round (score res) 4));
  ret (compressed ++ [doc_copy]).

Definition log_call (req : RerankRequest) (st : state) : state :=
  {| st_heap := st_heap st; st_self := st_self st; st_calls := st_calls st ++ [req] |}.

(** The store is closed and every input document's metadata is a dictionary. *)
Definition wf_input (h : gmap loc obj) (documents : list Document) : Prop :=
  closed h ∧ Forall (λ d, ∃ m, h !! metadata d = Some (ODict m)) documents.

(** [d'] is the copy of [d] made for the result entry [res]: same text, and
    its metadata is a new dictionary holding the items of a deep copy of the
    metadata of [d] (the dictionary [dcopy] at [y]) and the rounded score
    under [relevance_score]. *)
Definition built_from (h_in h_out : gmap loc obj) (d : Document) (res : RerankResult)
    (d' : Document) : Prop :=
  page_content d' = page_content d ∧
  (metadata d' ∉ dom h_in) ∧
  ∃ memo y dcopy,
    memo !! metadata d = Some y ∧
    metadata d' ≠ y ∧
    h_out !! y = Some (ODict dcopy) ∧
    h_out !! metadata d' =
      Some (ODict (<["relevance_score" := VFloat (py_round (score res) 4)]> dcopy)) ∧
    is_deepcopy h_in h_out memo.

(** Reachability through the references stored in containers. *)
Definition points_to (h : gmap loc obj) (l l' : loc) : Prop :=
  ∃ o, h !! l = Some o ∧ obj_has o (VRef l').

Definition reachable (h : gmap loc obj) : loc → loc → Prop := rtc (points_to h).

(** *** Bounds and checks *)

(** The bound the specification gives for the output length. *)
Definition length_limit (top : option Z) (n : nat) : Z :=
  match top with
  | Some k => Z.min k (Z.of_nat n)
  | None => Z.of_nat n
  end.

(** The input positions a response refers to. *)
Definition positions (documents : list Document) (results : list RerankResult) : list nat :=
  omap (λ res, py_position (length documents) (index res)) results.

(** Executable versions of [closed] and [wf_input]. *)
Definition val_inb (h : gmap loc obj) (v : val) : bool :=
  match v with
  | VRef l => bool_decide (is_Some (h !! l))
  | _ => true
  end.

Definition obj_vals (o : obj) : list val :=
  match o with
  | OList xs => xs
  | ODict d => (map_to_list d).*2
  end.

Definition closedb (h : gmap loc obj) : bool :=
  forallb (λ lo, forallb (val_inb h) (obj_vals lo.2)) (map_to_list h).

Definition is_dictb (h : gmap loc obj) (l : loc) : bool :=
  match h !! l with
  | Some (ODict _) => true
  | _ => false
  end.

Definition wf_inputb (h : gmap loc obj) (documents : list Document) : bool :=
  closedb h && forallb (λ d, is_dictb h (metadata d)) documents.

(** The value a run returned, and whether it returned one. *)
Definition is_ok {A} (r : result A) : bool :=
  match r with
  | Ok _ => true
  | Raise _ => false
  end.

Definition returned {A} (r : result A) (default : A) : A :=
  match r with
  | Ok a => a
  | Raise _ => default
  end.

End Predicates.

(** ** Construction, and further vocabulary *)

Section Construction.
Context `{PyRound}.

(** *** Construction

    The keyword arguments of [PineconeRerank(...)]: each field is given or
    left to its class default. *)
Record InitData := {
  data_client : option Pinecone;
  data_model : option string;
  data_top_n : option (option Z);
  data_truncation : option string
}.

(** The fields after [super().__init__(data)]: those of [data], else the
    defaults of the class ([client] defaults to [None]). *)
Record BaseFields := {
  f_client : option Pinecone;
  f_model : string;
  f_top_n : option Z;
  f_truncation : string
}.

Definition BaseModel_init (data : InitData) : BaseFields :=
  {| f_client := data_client data;
     f_model := default "pinecone-rerank-v0" (data_model data);
     f_top_n := default (Some 5) (data_top_n data);
     f_truncation := default "END" (data_truncation data) |}.

(** [__init__]: [super().__init__(data)], then [self.client = Pinecone()];
    [Pinecone_new] is the outcome of the call [Pinecone()]. *)
Definition PineconeRerank_init (data : InitData) (Pinecone_new : result Pinecone)
    : result PineconeRerank :=
  let this := BaseModel_init data in
  match Pinecone_new with
  | Ok c =>
      Ok {| client := c; model := f_model this; top_n := f_top_n this;
            truncation := f_truncation this |}
  | Raise e => Raise e
  end.

(** *** Independence of the copies

    No object is reachable from the metadata of two documents of [ds]. *)
Definition disjoint_copies (h : gmap loc obj) (ds : list Document) : Prop :=
  ∀ i j di dj l, (i < j)%nat → ds !! i = Some di → ds !! j = Some dj →
    reachable h (metadata di) l → ¬ reachable h (metadata dj) l.

End Construction.

(** ** A concrete instance

    Floats as exact rationals, [round] rounding half to even on the decimal
    expansion; a store with a cyclic metadata dictionary and one that
    already has a [relevance_score]. *)

Definition round_half_even (q : Q) : Z :=
  let f := Qfloor q in
  match Qcompare (q - inject_Z f) (1 # 2) with
  | Lt => f
  | Gt => f + 1
  | Eq => if Z.even f then f else f + 1
  end.

Definition Q_round (q : Q) (ndigits : Z) : Q :=
  Qred (inject_Z (round_half_even (q * Qpower 10 ndigits)) / Qpower 10 ndigits).

#[global] Instance QFloat : PyFloat := Q.
#[global] Instance QRound : PyRound := Q_round.

Definition ex_heap : gmap loc obj :=
  {[ 1%positive := ODict {[ "source" := VStr "a.txt"; "tags" := VRef 2%positive ]};
     2%positive := OList [VStr "x"; VRef 1%positive];
     3%positive := ODict {[ "relevance_score" := VInt 7 ]} ]}.

Definition ex_alpha : Document := {| page_content := "alpha"; metadata := 1%positive |}.
Definition ex_beta : Document := {| page_content := "beta"; metadata := 3%positive |}.
Definition ex_documents : list Document := [ex_alpha; ex_beta].

Definition ex_hit_beta : RerankResult := {| index := 1; score := (987654 # 1000000)%Q |}.
Definition ex_hit_alpha : RerankResult := {| index := 0; score := (1 # 3)%Q |}.
Definition ex_results : RerankResponse := {| data := [ex_hit_beta; ex_hit_alpha] |}.

(** A response naming position 0 twice, and one naming a position past the end. *)
Definition ex_twice : RerankResponse :=
  {| data := [ {| index := 0; score := (9 # 10)%Q |};
               {| index := 0; score := (9 # 10)%Q |} ] |}.

Definition ex_past_end : RerankResponse :=
  {| data := [ {| index := 0; score := (9 # 10)%Q |};
               {| index := 2; score := (1 # 10)%Q |} ] |}.

Definition ex_state (c : Pinecone) (n : option Z) : state :=
  {| st_heap := ex_heap;
     st_self := {| client := c; model := "pinecone-rerank-v0";
                   top_n := n; truncation := "END" |};
     st_calls := [] |}.

Definition ex_ok : state := ex_state (λ _, Ok ex_results) (Some 5).
Definition ex_dup : state := ex_state (λ _, Ok ex_twice) (Some 1).
Definition ex_bad : state := ex_state (λ _, Ok ex_past_end) (Some 5).
Definition ex_fail : state := ex_state (λ _, Raise (OtherError "PineconeApiException")) (Some 5).

Definition ex_out : list Document :=
  returned (compress_documents ex_documents "q" ex_ok).1 [].
Definition ex_final : state := (compress_documents ex_documents "q" ex_ok).2.

(** The first document of [ex_out]. *)
Definition ex_beta_copy : Document := {| page_content := "beta"; metadata := 5%positive |}.

Definition ex_dup_out : list Document :=
  returned (compress_documents [ex_alpha] "q" ex_dup).1 [].
Definition ex_dup_final : state := (compress_documents [ex_alpha] "q" ex_dup).2.

(** Responses with negative indices: within range, and below [-len]. *)
Definition ex_from_end : RerankResponse :=
  {| data := [ {| index := -1; score := (9 # 10)%Q |};
               {| index := -2; score := (1 # 10)%Q |} ] |}.

Definition ex_below : RerankResponse :=
  {| data := [ {| index := -3; score := (9 # 10)%Q |} ] |}.

Definition ex_neg : state := ex_state (λ _, Ok ex_from_end) (Some 5).
Definition ex_low : state := ex_state (λ _, Ok ex_below) (Some 5).

(** Keyword arguments that pass a client and set [top_n] to [None]. *)
Definition ex_data : InitData :=
  {| data_client := Some (λ _, Raise (OtherError "unused"));
     data_model := None;
     data_top_n := Some None;
     data_truncation := None |}.

(** * Verification *)

(** ** copy.deepcopy terminates and builds a fresh isomorphic copy *)

Section DeepcopySpec.
Context `{PyRound}.

Lemma copied_mono memo memo' v v' :
  memo ⊆ memo' → copied memo v v' → copied memo' v v'.
Proof.
  intros Hsub. destruct v; simpl; try done.
  intros (y & Hy & ->). exists y. split; [|done].
  by eapply lookup_weaken.
Qed.

Lemma obj_copied_mono memo memo' o o' :
  memo ⊆ memo' → obj_copied memo o o' → obj_copied memo' o o'.
Proof.
  intros Hsub. destruct o, o'; simpl; try done.
  - intros HF. eapply Forall2_impl; [exact HF|]. intros; by eapply copied_mono.
  - intros Hd k. specialize (Hd k). destruct Hd; constructor.
    by eapply copied_mono.
Qed.

Section Fixed.
Variable h0 : gmap loc obj.
Hypothesis Hclosed : closed h0.

Lemma copy_loop_spec fuel {K} (put : K → val → obj → obj) y :
  rec_ok h0 fuel →
  y ∉ dom h0 →
  ∀ items memo h o_y,
    h0 ⊆ h → dom memo ⊆ dom h0 → h !! y = Some o_y →
    Forall (λ kv, val_in (dom h0) kv.2) items →
    (size (dom h0 ∖ dom memo) ≤ fuel)%nat →
    ∃ memo' h' items',
      copy_loop (deepcopy_rec fuel) y put items (memo, h) = Some (memo', h') ∧
      (∀ l, l ∈ dom h → l ≠ y → h' !! l = h !! l) ∧
      Forall2 (item_copied memo') items items' ∧
      h' !! y = Some (puts put o_y items') ∧
      copy_post h0 memo h memo' h'.
Proof.
  intros IH Hy. induction items as [|[k a] rest IHrest];
    intros memo h o_y Hh Hmemo Hhy Hitems Hsize.
  - exists memo, h, []. simpl. split; [done|]. split; [done|].
    split; [constructor|]. split; [done|]. split; [done|]. split; [done|].
    intros l z Hz Hn. congruence.
  - apply Forall_cons in Hitems as [Ha Hrest]. simpl in Ha.
    destruct (IH a memo h Hh Hmemo Ha Hsize)
      as (a' & memo1 & h1 & Hrun & Hh1 & Hca & Hsub1 & Hdom1 & Hnew1).
    assert (Hy1 : h1 !! y = Some o_y) by (by eapply lookup_weaken).
    set (h2 := alter (put k a') y h1).
    assert (Hh2 : h0 ⊆ h2).
    { apply map_subseteq_spec. intros l1 o Hl.
      assert (l1 ≠ y) by (intros ->; apply Hy; by apply elem_of_dom).
      unfold h2. rewrite lookup_alter_ne by done.
      eapply lookup_weaken; [|exact Hh1]. by eapply lookup_weaken. }
    assert (Hy2 : h2 !! y = Some (put k a' o_y)).
    { unfold h2. by rewrite lookup_alter_eq, Hy1. }
    assert (Hsize1 : (size (dom h0 ∖ dom memo1) ≤ fuel)%nat).
    { etrans; [|exact Hsize]. apply subseteq_size.
      apply subseteq_dom in Hsub1.
      intros x [Hx Hn]%elem_of_difference. apply elem_of_difference.
      split; [done|]. intros Hm. apply Hn. by apply Hsub1. }
    destruct (IHrest memo1 h2 _ Hh2 Hdom1 Hy2 Hrest Hsize1)
      as (memo' & h' & rest' & Hloop & Hframe & Hrel & Hy' & Hsub' & Hdom' & Hnew').
    exists memo', h', ((k, a') :: rest'). simpl. rewrite Hrun. fold h2.
    split; [done|]. split.
    { intros l Hl Hne. rewrite Hframe.
      - unfold h2. rewrite lookup_alter_ne by done.
        apply elem_of_dom in Hl as [o Ho]. rewrite Ho. by eapply lookup_weaken.
      - unfold h2. apply elem_of_dom. rewrite lookup_alter_ne by done.
        apply elem_of_dom in Hl as [o Ho]. exists o. by eapply lookup_weaken.
      - done. }
    split.
    { constructor; [|done]. split; [done|]. simpl. by eapply copied_mono. }
    split; [done|].
    split; [by etrans|]. split; [done|].
    intros l z Hz Hn.
    destruct (memo1 !! l) as [z1|] eqn:Hl1.
    + assert (z1 = z) as ->.
      { eapply lookup_weaken in Hl1; [|exact Hsub']. congruence. }
      destruct (Hnew1 l z Hl1 Hn) as (Hzh & o & o' & Ho & Ho' & Hcp).
      split; [done|]. exists o, o'. split; [done|]. split.
      * assert (z ≠ y).
        { intros ->. apply Hzh. apply elem_of_dom. eauto. }
        rewrite Hframe; [| |done].
        -- unfold h2. by rewrite lookup_alter_ne.
        -- unfold h2. apply elem_of_dom. rewrite lookup_alter_ne by done. eauto.
      * by eapply obj_copied_mono.
    + destruct (Hnew' l z Hz Hl1) as (Hzh & o & o' & Ho & Ho' & Hcp).
      split; [|by exists o, o'].
      intros Hin. apply Hzh. unfold h2. apply elem_of_dom.
      apply elem_of_dom in Hin as [o1 Ho1].
      destruct (decide (z = y)) as [->|Hne].
      * rewrite lookup_alter_eq. rewrite Hy1. eauto.
      * rewrite lookup_alter_ne by done. exists o1. by eapply lookup_weaken.
Qed.

Lemma puts_cons {K} (put : K → val → obj → obj) o kv rest :
  puts put o (kv :: rest) = puts put (put kv.1 kv.2 o) rest.
Proof. reflexivity. Qed.

Lemma puts_list acc (items' : list (unit * val)) :
  puts (λ _ : unit, list_append) (OList acc) items' = OList (acc ++ items'.*2).
Proof.
  revert acc. induction items' as [|[[] a] rest IH]; intros acc.
  - simpl. by rewrite app_nil_r.
  - rewrite puts_cons. simpl. rewrite IH. by rewrite <- app_assoc.
Qed.

Lemma items_copied_list memo xs (items' : list (unit * val)) :
  Forall2 (item_copied memo) ((λ a, (tt, a)) <$> xs) items' →
  Forall2 (copied memo) xs (items'.*2).
Proof.
  revert items'. induction xs as [|a xs IH]; intros items' HF; simpl in *.
  - apply Forall2_nil_inv_l in HF as ->. constructor.
  - apply Forall2_cons_inv_l in HF as ([k a'] & rest & [_ Ha] & Hrest & ->).
    simpl. constructor; [done|]. by apply IH.
Qed.

Lemma puts_dict acc (items' : list (string * val)) :
  puts dict_put (ODict acc) items' = ODict (foldl (λ m kv, <[kv.1 := kv.2]> m) acc items').
Proof.
  revert acc. induction items' as [|[k a] rest IH]; intros acc; [done|].
  rewrite puts_cons. simpl. by rewrite IH.
Qed.

Lemma foldl_insert_to_map (items : list (string * val)) :
  foldl (λ m kv, <[kv.1 := kv.2]> m) (∅ : gmap string val) items
  = list_to_map (reverse items).
Proof.
  induction items as [|[k a] rest IH] using rev_ind; [done|].
  rewrite foldl_app. simpl. rewrite reverse_snoc. simpl. by rewrite IH.
Qed.

Lemma foldl_insert_copied memo (items items' : list (string * val)) :
  Forall2 (item_copied memo) items items' →
  ∀ acc acc' : gmap string val,
    (∀ k, option_Forall2 (copied memo) (acc !! k) (acc' !! k)) →
    ∀ k, option_Forall2 (copied memo)
           (foldl (λ m kv, <[kv.1 := kv.2]> m) acc items !! k)
           (foldl (λ m kv, <[kv.1 := kv.2]> m) acc' items' !! k).
Proof.
  induction 1 as [|[k1 a] [k1' a'] rest rest' [Hk Ha] _ IH]; intros acc acc' Hacc; [done|].
  simpl in *. subst k1'. apply IH. intros k.
  destruct (decide (k1 = k)) as [->|Hne].
  - rewrite !lookup_insert_eq. by constructor.
  - by rewrite !lookup_insert_ne.
Qed.

Lemma items_copied_dict memo (d : gmap string val) items' :
  Forall2 (item_copied memo) (map_to_list d) items' →
  obj_copied memo (ODict d) (puts dict_put (ODict ∅) items').
Proof.
  intros HF. rewrite puts_dict. simpl. intros k.
  assert (Hd : foldl (λ m kv, <[kv.1 := kv.2]> m) (∅ : gmap string val) (map_to_list d) = d).
  { rewrite foldl_insert_to_map.
    rewrite <- (list_to_map_to_list d) at 2.
    apply list_to_map_proper.
    - rewrite fmap_reverse, reverse_Permutation. apply NoDup_fst_map_to_list.
    - apply reverse_Permutation. }
  rewrite <- Hd at 1.
  apply foldl_insert_copied; [done|].
  intros k'. rewrite !lookup_empty. constructor.
Qed.

Lemma container_post l y o o_init memo h memo' h' o' :
  memo !! l = None → h0 !! l = Some o → y ∉ dom h →
  (∀ l1, l1 ∈ dom (<[y := o_init]> h) → l1 ≠ y → h' !! l1 = <[y := o_init]> h !! l1) →
  h' !! y = Some o' → obj_copied memo' o o' →
  copy_post h0 (<[l := y]> memo) (<[y := o_init]> h) memo' h' →
  h ⊆ h' ∧ copied memo' (VRef l) (VRef y) ∧ copy_post h0 memo h memo' h'.
Proof.
  intros Hl Ho Hy Hframe Hy' Hcp (Hsub & Hdom & Hnew).
  assert (Hly : memo' !! l = Some y).
  { eapply lookup_weaken; [|exact Hsub]. apply lookup_insert_eq. }
  split; [|split; [|split; [|split]]].
  - apply map_subseteq_spec. intros l1 o1 Hl1.
    assert (l1 ≠ y) by (intros ->; apply Hy; apply elem_of_dom; eauto).
    rewrite Hframe; [|apply elem_of_dom|done]; rewrite lookup_insert_ne; eauto.
  - by exists y.
  - etrans; [|exact Hsub]. by apply insert_subseteq.
  - done.
  - intros l1 z Hz Hn. destruct (decide (l1 = l)) as [->|Hne].
    + assert (z = y) as -> by congruence.
      split; [done|]. by exists o, o'.
    + destruct (Hnew l1 z Hz) as (Hzh & Hex); [by rewrite lookup_insert_ne|].
      split; [|done]. intros Hin. apply Hzh. rewrite dom_insert_L.
      apply elem_of_union. by right.
Qed.

Lemma deepcopy_rec_ok fuel : rec_ok h0 fuel.
Proof.
  induction fuel as [|fuel IH]; intros x memo h Hh Hmemo Hx Hsize.
  all: destruct x as [| | | | |l];
    try (eexists _, memo, h; split; [reflexivity|];
         split; [done|]; split; [done|]; split; [done|]; split; [done|];
         intros ? ? ? ?; congruence).
  all: simpl; destruct (memo !! l) as [y|] eqn:Hl;
    try (exists (VRef y), memo, h; split; [reflexivity|];
         split; [done|]; split; [by exists y|]; split; [done|]; split; [done|];
         intros ? ? ? ?; congruence).
  - exfalso. simpl in Hx.
    assert (Hin : l ∈ dom h0 ∖ dom memo).
    { apply elem_of_difference. split; [done|]. by apply not_elem_of_dom. }
    assert (Hpos : size (dom h0 ∖ dom memo) ≠ 0%nat).
    { apply size_non_empty_iff. intros Hempty. rewrite Hempty in Hin.
      by apply not_elem_of_empty in Hin. }
    lia.
  - simpl in Hx. apply elem_of_dom in Hx as [o Ho].
    assert (Hho : h !! l = Some o) by (by eapply lookup_weaken).
    rewrite Hho.
    set (y := fresh (dom h)).
    assert (Hyh : y ∉ dom h) by apply is_fresh.
    assert (Hy0 : y ∉ dom h0).
    { intros Hin. apply Hyh. apply subseteq_dom in Hh. set_solver. }
    assert (Hsize1 : (size (dom h0 ∖ dom (<[l := y]> memo)) ≤ fuel)%nat).
    { assert (Hlt : dom h0 ∖ dom (<[l := y]> memo) ⊂ dom h0 ∖ dom memo).
      { rewrite dom_insert_L. apply not_elem_of_dom in Hl.
        assert (Hl0 : l ∈ dom h0) by (apply elem_of_dom; eauto).
        split.
        - intros x [Hx Hn]%elem_of_difference. apply elem_of_difference.
          split; [done|]. intros Hm. apply Hn. apply elem_of_union. by right.
        - intros Hsub. specialize (Hsub l). rewrite !elem_of_difference in Hsub.
          destruct Hsub as [_ Hn]; [done|]. apply Hn, elem_of_union. left.
          by apply elem_of_singleton. }
      apply subset_size in Hlt. lia. }
    assert (Hmemo1 : dom (<[l := y]> memo) ⊆ dom h0).
    { rewrite dom_insert_L. assert (Hl0 : l ∈ dom h0) by (apply elem_of_dom; eauto).
      intros x [->%elem_of_singleton|Hx]%elem_of_union; [done|]. by apply Hmemo. }
    assert (Hsub0 : memo ⊆ <[l := y]> memo) by (by apply insert_subseteq).
    destruct o as [xs|d].
    + assert (Hh1 : h0 ⊆ <[y := OList []]> h).
      { etrans; [exact Hh|]. apply insert_subseteq. by apply not_elem_of_dom. }
      assert (Hitems : Forall (λ kv : unit * val, val_in (dom h0) kv.2) ((λ a, (tt, a)) <$> xs)).
      { apply Forall_fmap, Forall_forall. intros a Ha. simpl.
        by apply (Hclosed l (OList xs) a). }
      destruct (copy_loop_spec fuel (λ _ : unit, list_append) y IH Hy0 _ _ _ (OList [])
                  Hh1 Hmemo1 (lookup_insert_eq _ _ _) Hitems Hsize1)
        as (memo' & h' & items' & Hloop & Hframe & Hrel & Hy' & Hsub' & Hdom' & Hnew').
      rewrite Hloop. simpl.
      exists (VRef y), memo', h'. split; [done|].
      eapply container_post; try done.
      rewrite puts_list. simpl. by apply items_copied_list.
    + assert (Hh1 : h0 ⊆ <[y := ODict ∅]> h).
      { etrans; [exact Hh|]. apply insert_subseteq. by apply not_elem_of_dom. }
      assert (Hitems : Forall (λ kv : string * val, val_in (dom h0) kv.2) (map_to_list d)).
      { apply Forall_forall. intros [k a] Ha. simpl.
        apply (Hclosed l (ODict d) a); [done|]. exists k.
        by apply elem_of_map_to_list. }
      destruct (copy_loop_spec fuel dict_put y IH Hy0 _ _ _ (ODict ∅)
                  Hh1 Hmemo1 (lookup_insert_eq _ _ _) Hitems Hsize1)
        as (memo' & h' & items' & Hloop & Hframe & Hrel & Hy' & Hsub' & Hdom' & Hnew').
      rewrite Hloop. simpl.
      exists (VRef y), memo', h'. split; [done|].
      eapply container_post; try done.
      by apply items_copied_dict.
Qed.

End Fixed.
End DeepcopySpec.

(** ** The loop over the response entries *)

Section LoopSpec.
Context `{PyRound}.

Lemma compress_documents_unfold documents query :
  compress_documents documents query =
  if Z.of_nat (length documents) =? 0 then ret []
  else do results <- _rerank (IsDoc <$> documents) query;
       for_each (data results) [] (copy_result documents).
Proof. reflexivity. Qed.

Lemma _rerank_run documents query st :
  _rerank documents query st =
  (client (st_self st) (rerank_request (st_self st) documents query),
   log_call (rerank_request (st_self st) documents query) st).
Proof. reflexivity. Qed.

Lemma compress_documents_nonempty documents query st :
  documents ≠ [] →
  compress_documents documents query st =
  match client (st_self st) (rerank_request (st_self st) (IsDoc <$> documents) query) with
  | Ok results =>
      for_each (data results) [] (copy_result documents)
        (log_call (rerank_request (st_self st) (IsDoc <$> documents) query) st)
  | Raise e =>
      (Raise e, log_call (rerank_request (st_self st) (IsDoc <$> documents) query) st)
  end.
Proof.
  intros Hne. rewrite compress_documents_unfold.
  destruct documents as [|d ds]; [done|].
  replace (Z.of_nat (length (d :: ds)) =? 0) with false
    by (symmetry; apply Z.eqb_neq; simpl; lia).
  unfold bind. rewrite _rerank_run. by destruct (client _ _).
Qed.

(** The loop body touches the store only. *)
Lemma copy_result_frame documents compressed res st r st' :
  copy_result documents compressed res st = (r, st') →
  ∃ h', st' = set_heap h' st.
Proof.
  unfold copy_result, bind, py_getitem, deepcopy, Document_init, dict_setitem, ret, raise.
  intros Hrun.
  assert (Hid : st = set_heap (st_heap st) st) by (by destruct st).
  destruct (py_lookup documents (index res)) as [doc|]; [|exists (st_heap st); congruence].
  destruct (deepcopy_rec _ _ _) as [[x' [memo h1]]|]; [|exists (st_heap st); congruence].
  simpl in Hrun.
  destruct x' as [| | | | |y]; try (exists h1; congruence).
  destruct (h1 !! y) as [[xs|d]|] eqn:Hy; try (exists h1; congruence).
  simpl in Hrun. rewrite lookup_insert_eq in Hrun. eexists. by inversion Hrun.
Qed.

Lemma for_each_frame documents results : ∀ acc st r st',
  for_each results acc (copy_result documents) st = (r, st') →
  ∃ h', st' = set_heap h' st.
Proof.
  induction results as [|res rest IH]; intros acc st r st' Hrun; simpl in Hrun.
  - exists (st_heap st). destruct st. by inversion Hrun.
  - unfold bind in Hrun.
    destruct (copy_result documents acc res st) as [[acc'|e] st1] eqn:Hbody.
    + apply copy_result_frame in Hbody as [h1 ->].
      apply IH in Hrun as [h' ->]. by exists h'.
    + apply copy_result_frame in Hbody as [h1 ->]. exists h1. congruence.
Qed.

(** What the loop returns, entry by entry. *)
Lemma copy_result_ok documents compressed res st out st' :
  copy_result documents compressed res st = (Ok out, st') →
  ∃ d d', py_lookup documents (index res) = Some d ∧
          out = compressed ++ [d'] ∧ page_content d' = page_content d.
Proof.
  unfold copy_result, bind, py_getitem, deepcopy, Document_init, dict_setitem, ret, raise.
  intros Hrun.
  destruct (py_lookup documents (index res)) as [doc|]; [|done].
  destruct (deepcopy_rec _ _ _) as [[x' [memo h1]]|]; [|done].
  simpl in Hrun.
  destruct x' as [| | | | |y]; try done.
  destruct (h1 !! y) as [[xs|d]|] eqn:Hy; try done.
  simpl in Hrun. rewrite lookup_insert_eq in Hrun.
  exists doc, {| page_content := page_content doc; metadata := fresh (dom h1) |}.
  split; [done|]. split; [congruence|done].
Qed.

Lemma for_each_ok documents results : ∀ acc st out st',
  for_each results acc (copy_result documents) st = (Ok out, st') →
  ∃ new, out = acc ++ new ∧
    Forall2 (λ res d', ∃ d, py_lookup documents (index res) = Some d ∧
                            page_content d' = page_content d) results new.
Proof.
  induction results as [|res rest IH]; intros acc st out st' Hrun; simpl in Hrun.
  - exists []. inversion Hrun. by rewrite app_nil_r.
  - unfold bind in Hrun.
    destruct (copy_result documents acc res st) as [[acc'|e] st1] eqn:Hbody; [|done].
    apply copy_result_ok in Hbody as (d & d' & Hd & -> & Hpc).
    apply IH in Hrun as (new & -> & Hnew).
    exists (d' :: new). rewrite <- app_assoc. split; [done|].
    constructor; [by exists d|done].
Qed.

(** *** With a well-formed store the copies are deep copies *)

Lemma deepcopy_top (h0 h : gmap loc obj) l :
  closed h0 → h0 ⊆ h → l ∈ dom h0 →
  ∃ y memo h',
    deepcopy_rec (size h) (VRef l) (∅, h) = Some (VRef y, (memo, h')) ∧
    h ⊆ h' ∧ memo !! l = Some y ∧ (y ∉ dom h) ∧ is_deepcopy h0 h' memo.
Proof.
  intros Hcl Hh Hl.
  destruct (deepcopy_rec_ok h0 Hcl (size h) (VRef l) ∅ h) as
    (x' & memo & h' & Hrun & Hh' & (y & Hy & ->) & Hsub & Hdom & Hnew); try done.
  { rewrite dom_empty_L, difference_empty_L, <- !size_dom.
    apply subseteq_size. by apply subseteq_dom. }
  exists y, memo, h'. split; [done|]. split; [done|]. split; [done|].
  split; [by apply (Hnew l y)|].
  intros l1 z Hz. destruct (Hnew l1 z Hz) as (Hzh & Hex); [done|].
  split; [|done]. intros Hin. apply Hzh. apply subseteq_dom in Hh.
  by apply Hh.
Qed.

Lemma is_deepcopy_mono (h0 h h2 : gmap loc obj) memo :
  h ⊆ h2 → is_deepcopy h0 h memo → is_deepcopy h0 h2 memo.
Proof.
  intros Hsub Hc l y Hy. destruct (Hc l y Hy) as (Hy0 & o & o' & Ho & Ho' & Hcp).
  split; [done|]. exists o, o'. split; [done|]. split; [|done].
  by eapply lookup_weaken.
Qed.

Lemma built_from_mono (h_in h h2 : gmap loc obj) d res d' :
  h ⊆ h2 → built_from h_in h d res d' → built_from h_in h2 d res d'.
Proof.
  intros Hsub (Hpc & Hnew & memo & y & dcopy & Hm & Hne & Hy & Hd' & Hc).
  split; [done|]. split; [done|]. exists memo, y, dcopy.
  split; [done|]. split; [done|].
  split; [by eapply lookup_weaken|]. split; [by eapply lookup_weaken|].
  by eapply is_deepcopy_mono.
Qed.

Lemma py_lookup_elem_of {A} (xs : list A) i x : py_lookup xs i = Some x → x ∈ xs.
Proof.
  unfold py_lookup. destruct (py_position _ _) as [j|]; [|done]. simpl.
  apply list_elem_of_lookup_2.
Qed.

Lemma copy_result_spec h_in documents compressed res d st :
  wf_input h_in documents → h_in ⊆ st_heap st →
  py_lookup documents (index res) = Some d →
  ∃ d' h',
    copy_result documents compressed res st = (Ok (compressed ++ [d']), set_heap h' st) ∧
    st_heap st ⊆ h' ∧ built_from h_in h' d res d'.
Proof.
  intros [Hcl Hdocs] Hh Hd.
  assert (Hm : ∃ m, h_in !! metadata d = Some (ODict m)).
  { rewrite Forall_forall in Hdocs. apply Hdocs. by eapply py_lookup_elem_of. }
  destruct Hm as [m Hm].
  destruct (deepcopy_top h_in (st_heap st) (metadata d) Hcl Hh) as
    (y & memo & h1 & Hrun & Hh1 & Hy & Hfresh & Hc).
  { apply elem_of_dom. eauto. }
  destruct (Hc _ _ Hy) as (Hy0 & o & o' & Ho & Ho' & Hcp).
  assert (o = ODict m) as -> by congruence.
  destruct o' as [xs|dcopy]; [done|].
  set (y2 := fresh (dom h1)).
  assert (Hy2 : h1 !! y2 = None) by (apply not_elem_of_dom, is_fresh).
  exists {| page_content := page_content d; metadata := y2 |},
         (<[y2 := ODict (<["relevance_score" := VFloat (py_round (score res) 4)]> dcopy)]> h1).
  split; [|split].
  - unfold copy_result, bind, py_getitem, deepcopy, Document_init, dict_setitem, ret.
    rewrite Hd. rewrite Hrun. simpl. rewrite Ho'. simpl. fold y2.
    rewrite lookup_insert_eq. by rewrite insert_insert_eq.
  - by apply insert_subseteq_r; [eapply lookup_weaken_None|].
  - split; [done|]. simpl. split.
    { intros Hin. apply elem_of_dom in Hin as [o0 Ho0].
      eapply lookup_weaken in Ho0; [|exact Hh].
      eapply lookup_weaken in Ho0; [|exact Hh1]. congruence. }
    exists memo, y, dcopy. split; [done|].
    split; [intros ->; congruence|].
    split; [by rewrite lookup_insert_ne by (intros ->; congruence)|].
    split; [apply lookup_insert_eq|].
    eapply is_deepcopy_mono; [|exact Hc]. by apply insert_subseteq.
Qed.

Lemma for_each_spec h_in documents :
  wf_input h_in documents →
  ∀ results acc st,
    h_in ⊆ st_heap st →
    Forall (λ res, is_Some (py_lookup documents (index res))) results →
    ∃ new h',
      for_each results acc (copy_result documents) st
        = (Ok (acc ++ new), set_heap h' st) ∧
      st_heap st ⊆ h' ∧
      Forall2 (λ res d', ∃ d, py_lookup documents (index res) = Some d ∧
                              built_from h_in h' d res d') results new.
Proof.
  intros Hwf. induction results as [|res rest IH]; intros acc st Hh Hvalid.
  - exists [], (st_heap st). simpl. rewrite app_nil_r.
    split; [by destruct st|]. split; [done|constructor].
  - apply Forall_cons in Hvalid as [[d Hd] Hrest].
    destruct (copy_result_spec h_in documents acc res d st Hwf Hh Hd)
      as (d' & h1 & Hbody & Hh1 & Hb).
    destruct (IH (acc ++ [d']) (set_heap h1 st)) as (new & h' & Hrun & Hh' & Hnew);
      [by etrans|done|].
    exists (d' :: new), h'. simpl. unfold bind. rewrite Hbody, Hrun.
    rewrite <- app_assoc. split; [done|]. split; [by etrans|].
    constructor; [|done]. exists d. split; [done|].
    by eapply built_from_mono.
Qed.

Lemma for_each_index_error h_in documents :
  wf_input h_in documents →
  ∀ results acc st,
    h_in ⊆ st_heap st →
    Exists (λ res, py_lookup documents (index res) = None) results →
    ∃ h',
      for_each results acc (copy_result documents) st
        = (Raise IndexError, set_heap h' st) ∧
      st_heap st ⊆ h'.
Proof.
  intros Hwf. induction results as [|res rest IH]; intros acc st Hh Hbad.
  - by apply Exists_nil in Hbad.
  - simpl. unfold bind.
    destruct (py_lookup documents (index res)) as [d|] eqn:Hd.
    + destruct (copy_result_spec h_in documents acc res d st Hwf Hh Hd)
        as (d' & h1 & Hbody & Hh1 & Hb).
      rewrite Hbody. apply Exists_cons in Hbad as [Hbad|Hbad]; [congruence|].
      destruct (IH (acc ++ [d']) (set_heap h1 st)) as (h' & Hrun & Hh');
        [by etrans|done|].
      exists h'. split; [done|]. by etrans.
    + exists (st_heap st). unfold copy_result, bind, py_getitem, raise. rewrite Hd.
      split; [by destruct st|done].
Qed.

End LoopSpec.

(** ** The compressor *)

Section Compress.
Context `{PyRound}.

Lemma valid_or_invalid (documents : list Document) (results : list RerankResult) :
  Forall (λ res, is_Some (py_lookup documents (index res))) results ∨
  Exists (λ res, py_lookup documents (index res) = None) results.
Proof.
  induction results as [|res rest [IH|IH]].
  - left. constructor.
  - destruct (py_lookup documents (index res)) eqn:Hd.
    + left. constructor; [by rewrite Hd|done].
    + right. by constructor.
  - right. by constructor.
Qed.

Lemma compress_documents_ok documents query st results out st' :
  wf_input (st_heap st) documents → documents ≠ [] →
  client (st_self st) (rerank_request (st_self st) (IsDoc <$> documents) query) = Ok results →
  compress_documents documents query st = (Ok out, st') →
  st_heap st ⊆ st_heap st' ∧
  Forall2 (λ res d', ∃ d, py_lookup documents (index res) = Some d ∧
                          built_from (st_heap st) (st_heap st') d res d')
          (data results) out.
Proof.
  intros Hwf Hne Hclient Hrun.
  rewrite compress_documents_nonempty, Hclient in Hrun by done.
  pose proof (for_each_ok _ _ _ _ _ _ Hrun) as (new & _ & Hnew).
  assert (Hvalid : Forall (λ res, is_Some (py_lookup documents (index res))) (data results)).
  { clear -Hnew. induction Hnew as [|res d' ? ? (d & Hd & _)]; constructor; [|done].
    by rewrite Hd. }
  destruct (for_each_spec (st_heap st) documents Hwf (data results) []
              (log_call (rerank_request (st_self st) (IsDoc <$> documents) query) st))
    as (new' & h' & Hrun' & Hh' & Hnew'); [done|done|].
  rewrite Hrun in Hrun'. inversion Hrun'; subst. done.
Qed.

Lemma py_position_lt n i j : py_position n i = Some j → (j < n)%nat.
Proof.
  unfold py_position. intros Hp.
  destruct (i <? 0) eqn:Hi;
    match type of Hp with
    | (if ?b then _ else _) = _ => destruct b eqn:Hb; [|done]
    end;
    apply andb_true_iff in Hb as [?%Z.leb_le ?%Z.ltb_lt]; inversion Hp; lia.
Qed.

Lemma py_position_nonneg n i : 0 ≤ i < Z.of_nat n → py_position n i = Some (Z.to_nat i).
Proof.
  intros [Hlo Hhi]. unfold py_position.
  replace (i <? 0) with false by (symmetry; apply Z.ltb_ge; lia).
  replace (0 <=? i) with true by (symmetry; apply Z.leb_le; lia).
  replace (i <? Z.of_nat n) with true by (symmetry; apply Z.ltb_lt; lia).
  done.
Qed.

Lemma py_position_too_large n i : Z.of_nat n ≤ i → py_position n i = None.
Proof.
  intros Hhi. unfold py_position.
  replace (i <? 0) with false by (symmetry; apply Z.ltb_ge; lia).
  replace (i <? Z.of_nat n) with false by (symmetry; apply Z.ltb_ge; lia).
  by rewrite andb_false_r.
Qed.

Lemma py_lookup_nonneg {A} (xs : list A) i :
  0 ≤ i < Z.of_nat (length xs) → py_lookup xs i = xs !! Z.to_nat i ∧ is_Some (py_lookup xs i).
Proof.
  intros Hi. unfold py_lookup. rewrite py_position_nonneg by done. simpl.
  split; [done|]. apply lookup_lt_is_Some. lia.
Qed.

Lemma py_lookup_too_large {A} (xs : list A) i :
  Z.of_nat (length xs) ≤ i → py_lookup xs i = None.
Proof. intros Hi. unfold py_lookup. by rewrite py_position_too_large. Qed.

Lemma py_position_wrap n i :
  - Z.of_nat n ≤ i < Z.of_nat n → py_position n i = Some (Z.to_nat (i `mod` Z.of_nat n)).
Proof.
  intros [Hlo Hhi]. unfold py_position.
  destruct (i <? 0) eqn:Hi.
  - apply Z.ltb_lt in Hi.
    replace (0 <=? i + Z.of_nat n) with true by (symmetry; apply Z.leb_le; lia).
    replace (i + Z.of_nat n <? Z.of_nat n) with true by (symmetry; apply Z.ltb_lt; lia).
    simpl. do 2 f_equal.
    rewrite <- (Z.mod_small (i + Z.of_nat n) (Z.of_nat n)) by lia.
    replace (i + Z.of_nat n) with (i + 1 * Z.of_nat n) by lia.
    by rewrite Z.mod_add by lia.
  - apply Z.ltb_ge in Hi.
    replace (0 <=? i) with true by (symmetry; apply Z.leb_le; lia).
    replace (i <? Z.of_nat n) with true by (symmetry; apply Z.ltb_lt; lia).
    simpl. by rewrite Z.mod_small by lia.
Qed.

Lemma py_position_too_small n i : i < - Z.of_nat n → py_position n i = None.
Proof.
  intros Hlo. unfold py_position.
  replace (i <? 0) with true by (symmetry; apply Z.ltb_lt; lia).
  by replace (0 <=? i + Z.of_nat n) with false by (symmetry; apply Z.leb_gt; lia).
Qed.

Lemma py_position_range n i j :
  py_position n i = Some j →
  - Z.of_nat n ≤ i < Z.of_nat n ∧ j = Z.to_nat (i `mod` Z.of_nat n).
Proof.
  intros Hp.
  assert (Hrange : - Z.of_nat n ≤ i < Z.of_nat n).
  { unfold py_position in Hp.
    destruct (i <? 0) eqn:Hi;
      match type of Hp with
      | (if ?b then _ else _) = _ => destruct b eqn:Hb; [|done]
      end;
      apply andb_true_iff in Hb as [?%Z.leb_le ?%Z.ltb_lt];
      [apply Z.ltb_lt in Hi|apply Z.ltb_ge in Hi]; lia. }
  split; [done|]. rewrite py_position_wrap in Hp by done. congruence.
Qed.

Lemma py_lookup_range {A} (xs : list A) i x :
  py_lookup xs i = Some x →
  - Z.of_nat (length xs) ≤ i < Z.of_nat (length xs) ∧
  xs !! Z.to_nat (i `mod` Z.of_nat (length xs)) = Some x.
Proof.
  unfold py_lookup. destruct (py_position _ _) as [j|] eqn:Hp; [|done].
  apply py_position_range in Hp as [Hrange ->]. by split.
Qed.

Lemma py_lookup_in_range {A} (xs : list A) i :
  - Z.of_nat (length xs) ≤ i < Z.of_nat (length xs) → is_Some (py_lookup xs i).
Proof.
  intros Hi. unfold py_lookup. rewrite py_position_wrap by done.
  change (is_Some (xs !! Z.to_nat (i `mod` Z.of_nat (length xs)))).
  apply lookup_lt_is_Some.
  pose proof (Z.mod_pos_bound i (Z.of_nat (length xs))). lia.
Qed.

(** C1.  For a non-empty input and a remote response, the call returns when
    every index lies in [-len, len), and whenever it returns the output has
    one document per response entry, in the order of the response: the
    [i]-th output document is built from the input document at position
    [data[i].index] (for a negative index, counted from the end), whatever
    the input order.  It has that document's text, and, in a well-formed
    store, its metadata is the copy described by [built_from]. *)
Theorem compress_documents_order documents query st results :
  documents ≠ [] →
  client (st_self st) (rerank_request (st_self st) (IsDoc <$> documents) query) = Ok results →
  (wf_input (st_heap st) documents →
   Forall (λ res, - Z.of_nat (length documents) ≤ index res < Z.of_nat (length documents))
          (data results) →
   ∃ out st', compress_documents documents query st = (Ok out, st')) ∧
  ∀ out st', compress_documents documents query st = (Ok out, st') →
    length out = length (data results) ∧
    ∀ i res, data results !! i = Some res →
      - Z.of_nat (length documents) ≤ index res < Z.of_nat (length documents) ∧
      ∃ d d',
        documents !! Z.to_nat (index res `mod` Z.of_nat (length documents)) = Some d ∧
        (0 ≤ index res → documents !! Z.to_nat (index res) = Some d) ∧
        out !! i = Some d' ∧
        page_content d' = page_content d ∧
        (wf_input (st_heap st) documents →
         built_from (st_heap st) (st_heap st') d res d').
Proof.
  intros Hne Hclient. split.
  { intros Hwf Hvalid. rewrite compress_documents_nonempty, Hclient by done.
    destruct (for_each_spec _ _ Hwf (data results) [] (log_call
      (rerank_request (st_self st) (IsDoc <$> documents) query) st))
      as (new & h' & Hrun & _); [done| |by eauto].
    eapply Forall_impl; [exact Hvalid|]. intros res Hres. by apply py_lookup_in_range. }
  intros out st' Hrun.
  pose proof Hrun as Hrun0.
  rewrite compress_documents_nonempty, Hclient in Hrun by done.
  apply for_each_ok in Hrun as (new & -> & Hnew). simpl.
  split; [symmetry; by eapply Forall2_length|].
  intros i res Hi.
  destruct (Forall2_lookup_l _ _ _ _ _ Hnew Hi) as (d' & Hd' & d & Hd & Hpc).
  destruct (py_lookup_range _ _ _ Hd) as [Hrange Hpos].
  split; [done|]. exists d, d'. split; [done|].
  split; [intros Hnn; by rewrite Z.mod_small in Hpos by lia|].
  split; [done|]. split; [done|].
  intros Hwf.
  destruct (compress_documents_ok _ _ _ _ _ _ Hwf Hne Hclient Hrun0) as [_ Hall].
  destruct (Forall2_lookup_l _ _ _ _ _ Hall Hi) as (d2 & Hd2 & d3 & Hd3 & Hb).
  simpl in Hd2. congruence.
Qed.


Lemma copied_ref_inv memo v z :
  copied memo v (VRef z) → ∃ l, v = VRef l ∧ memo !! l = Some z.
Proof.
  destruct v; simpl; try done. intros (y & Hy & [= ->]). by exists l.
Qed.

Lemma obj_copied_refs memo o o' z :
  obj_copied memo o o' → obj_has o' (VRef z) → ∃ l, memo !! l = Some z.
Proof.
  destruct o as [xs|d], o' as [ys|d']; simpl; try done.
  - intros HF Hin. apply list_elem_of_lookup in Hin as [i Hi].
    destruct (Forall2_lookup_r _ _ _ _ _ HF Hi) as (x & _ & Hx).
    apply copied_ref_inv in Hx as (l & _ & Hl). eauto.
  - intros Hd [k Hk]. specialize (Hd k). rewrite Hk in Hd.
    inversion Hd as [v ? Hv|]; subst.
    apply copied_ref_inv in Hv as (l & _ & Hl). eauto.
Qed.

(** From the metadata of a copy only the new dictionary itself and the
    objects made by the deep copy are reachable. *)
Lemma copy_reachable (h_in h : gmap loc obj) memo l_top y dcopy y2 (x : float) l :
  is_deepcopy h_in h memo →
  memo !! l_top = Some y →
  h !! y = Some (ODict dcopy) →
  h !! y2 = Some (ODict (<["relevance_score" := VFloat x]> dcopy)) →
  reachable h y2 l → l = y2 ∨ ∃ l0, memo !! l0 = Some l.
Proof.
  intros Hc Hy Hhy Hhy2 Hreach.
  assert (Hgen : ∀ z, rtc (points_to h) z l →
            (z = y2 ∨ ∃ l0, memo !! l0 = Some z) → l = y2 ∨ ∃ l0, memo !! l0 = Some l);
    [|apply (Hgen y2); [done|by left]].
  clear Hreach. intros z Hreach.
  induction Hreach as [z|z z1 z2 (o & Ho & Hhas) _ IH]; [done|].
  intros Hz. apply IH. right. destruct Hz as [->|[l0 Hl0]].
  - rewrite Hhy2 in Ho. injection Ho as <-. destruct Hhas as [k Hk].
    destruct (decide (k = "relevance_score")) as [->|Hk'];
      [by rewrite lookup_insert_eq in Hk|].
    rewrite lookup_insert_ne in Hk by done.
    destruct (Hc _ _ Hy) as (_ & o0 & o' & _ & Ho' & Hcp).
    assert (o' = ODict dcopy) as -> by congruence.
    eapply obj_copied_refs; [exact Hcp|]. by exists k.
  - destruct (Hc l0 z Hl0) as (_ & o0 & o' & _ & Ho' & Hcp).
    assert (o' = o) as -> by congruence.
    by eapply obj_copied_refs.
Qed.

(** Everything reachable from the metadata of a copy was allocated by the
    copy: it lies outside the store the copy was made from. *)
Lemma built_from_reachable (h_in h : gmap loc obj) d res d' l :
  built_from h_in h d res d' → reachable h (metadata d') l → l ∉ dom h_in.
Proof.
  intros (_ & Hnew & memo & y & dcopy & Hm & _ & Hy & Hd' & Hc) Hreach.
  destruct (copy_reachable _ _ _ _ _ _ _ _ _ Hc Hm Hy Hd' Hreach) as [->|[l0 Hl0]];
    [done|]. by apply (Hc l0 l).
Qed.


(** C3 (amended).  The output has exactly one document per entry of the
    remote response.  It is no longer than the input when the response names
    no input position twice, and no longer than [top_n] when the response
    has at most [top_n] entries; the limit is sent to the remote service and
    not enforced locally. *)
Theorem compress_documents_length documents query st results out st' :
  documents ≠ [] →
  client (st_self st) (rerank_request (st_self st) (IsDoc <$> documents) query) = Ok results →
  compress_documents documents query st = (Ok out, st') →
  length out = length (data results) ∧
  (NoDup (positions documents (data results)) → (length out ≤ length documents)%nat) ∧
  (∀ n, top_n (st_self st) = Some n →
        Z.of_nat (length (data results)) ≤ n → Z.of_nat (length out) ≤ n).
Proof.
  intros Hne Hclient Hrun.
  rewrite compress_documents_nonempty, Hclient in Hrun by done.
  apply for_each_ok in Hrun as (new & -> & Hnew). simpl.
  assert (Hlen : length new = length (data results)) by (symmetry; by eapply Forall2_length).
  split; [done|]. split; [|intros n _ Hn; by rewrite Hlen].
  intros Hnodup.
  assert (Hpos : length (positions documents (data results)) = length (data results)
                 ∧ Forall (λ j, (j < length documents)%nat) (positions documents (data results))).
  { clear -Hnew. unfold positions.
    induction Hnew as [|res d' rs ds (d & Hd & _) _ [IH1 IH2]]; [by split|].
    unfold py_lookup in Hd. simpl.
    destruct (py_position (length documents) (index res)) as [j|] eqn:Hj; [|done].
    simpl. split; [f_equal; exact IH1|]. constructor; [|exact IH2].
    by eapply py_position_lt. }
  destruct Hpos as [Hlen' Hlt].
  rewrite Hlen, <- Hlen', <- (length_seq (length documents) 0).
  apply submseteq_length, NoDup_submseteq; [done|].
  intros j Hj. rewrite Forall_forall in Hlt. apply elem_of_seq. specialize (Hlt j Hj). lia.
Qed.

(** C4.  On an empty input sequence [compress_documents] and
    [acompress_documents] return the empty sequence and leave the state as
    it was: no rerank request is issued. *)
Theorem compress_documents_empty query st :
  compress_documents [] query st = (Ok [], st) ∧
  acompress_documents [] query st = (Ok [], st) ∧
  st_calls (compress_documents [] query st).2 = st_calls st ∧
  st_calls (acompress_documents [] query st).2 = st_calls st.
Proof. repeat split. Qed.

(** C5.  When the remote call raises [e] on a non-empty input,
    [compress_documents] raises exactly [e]; the request was issued once, and
    the compressor's fields and the store are unchanged. *)
Theorem compress_documents_remote_error documents query st e :
  documents ≠ [] →
  client (st_self st) (rerank_request (st_self st) (IsDoc <$> documents) query) = Raise e →
  ∃ st',
    compress_documents documents query st = (Raise e, st') ∧
    st_self st' = st_self st ∧
    st_heap st' = st_heap st ∧
    st_calls st' = st_calls st ++ [rerank_request (st_self st) (IsDoc <$> documents) query].
Proof.
  intros Hne Hclient. eexists. rewrite compress_documents_nonempty, Hclient by done.
  done.
Qed.

Lemma acompress_documents_nonempty documents query st :
  documents ≠ [] →
  acompress_documents documents query st =
  match client (st_self st) (rerank_request (st_self st) (IsDoc <$> documents) query) with
  | Ok results =>
      (Raise TypeError,
       log_call (rerank_request (st_self st) (IsDoc <$> documents) query) st)
  | Raise e =>
      (Raise e, log_call (rerank_request (st_self st) (IsDoc <$> documents) query) st)
  end.
Proof.
  intros Hne. destruct documents as [|d ds]; [done|].
  unfold acompress_documents.
  replace (Z.of_nat (length (d :: ds)) =? 0) with false
    by (symmetry; apply Z.eqb_neq; simpl; lia).
  unfold bind, await, _arerank, bind, self, client_inference_rerank, raise. simpl.
  by destruct (client _ _).
Qed.

(** C6.  The asynchronous variant does not return what the synchronous one
    returns: on a non-empty input for which the remote call answers,
    [compress_documents] returns one document per entry, and
    [acompress_documents], which awaits the value of the synchronous
    client's call, raises [TypeError] after the request was issued. *)
Theorem acompress_documents_diverges documents query st results :
  wf_input (st_heap st) documents → documents ≠ [] →
  client (st_self st) (rerank_request (st_self st) (IsDoc <$> documents) query) = Ok results →
  Forall (λ res, 0 ≤ index res < Z.of_nat (length documents)) (data results) →
  (∃ out st',
     compress_documents documents query st = (Ok out, st') ∧
     length out = length (data results)) ∧
  acompress_documents documents query st =
    (Raise TypeError, log_call (rerank_request (st_self st) (IsDoc <$> documents) query) st).
Proof.
  intros Hwf Hne Hclient Hvalid. split.
  - rewrite compress_documents_nonempty, Hclient by done.
    destruct (for_each_spec _ _ Hwf (data results) [] (log_call
      (rerank_request (st_self st) (IsDoc <$> documents) query) st))
      as (new & h' & Hrun & _ & Hall); [done| |].
    { eapply Forall_impl; [exact Hvalid|]. intros res Hres. by apply py_lookup_nonneg. }
    eexists _, _. split; [exact Hrun|]. symmetry. by eapply Forall2_length.
  - by rewrite acompress_documents_nonempty, Hclient.
Qed.

(** C7.  Whatever [compress_documents] returns, every object of the input
    store is unchanged, and every object reachable from the metadata of an
    output document was allocated by the call: writing to it leaves the
    input store as it was. *)
Theorem compress_documents_frame documents query st r st' :
  wf_input (st_heap st) documents →
  compress_documents documents query st = (r, st') →
  st_heap st ⊆ st_heap st' ∧
  ∀ out d' l, r = Ok out → d' ∈ out → reachable (st_heap st') (metadata d') l →
    (l ∉ dom (st_heap st)) ∧
    ∀ o, st_heap st ⊆ <[l := o]> (st_heap st').
Proof.
  intros Hwf Hrun.
  destruct documents as [|d0 ds].
  { inversion Hrun; subst. split; [done|]. intros out d' l [= <-] Hin. by apply elem_of_nil in Hin. }
  set (documents := d0 :: ds) in *.
  assert (Hne : documents ≠ []) by done.
  pose proof Hrun as Hrun0.
  rewrite compress_documents_nonempty in Hrun by done.
  destruct (client _ _) as [results|e] eqn:Hclient.
  - assert (Hsub : st_heap st ⊆ st_heap st').
    { destruct (valid_or_invalid documents (data results)) as [Hv|Hv].
      - destruct (for_each_spec _ _ Hwf (data results) [] (log_call
          (rerank_request (st_self st) (IsDoc <$> documents) query) st))
          as (new & h' & Hrun' & Hh' & _); [done|done|].
        rewrite Hrun in Hrun'. by inversion Hrun'; subst.
      - destruct (for_each_index_error _ _ Hwf (data results) [] (log_call
          (rerank_request (st_self st) (IsDoc <$> documents) query) st))
          as (h' & Hrun' & Hh'); [done|done|].
        rewrite Hrun in Hrun'. by inversion Hrun'; subst. }
    split; [done|]. intros out d' l -> Hin Hreach.
    destruct (compress_documents_ok _ _ _ _ _ _ Hwf Hne Hclient Hrun0) as [_ Hall].
    apply list_elem_of_lookup in Hin as [i Hi].
    destruct (Forall2_lookup_r _ _ _ _ _ Hall Hi) as (res & _ & d & _ & Hb).
    assert (Hl : l ∉ dom (st_heap st)) by (by eapply built_from_reachable).
    split; [done|]. intros o. apply insert_subseteq_r; [by apply not_elem_of_dom|done].
  - inversion Hrun; subst. split; [done|]. by intros out d' l [=].
Qed.

(** C8.  [_rerank] issues one request with the text of every document in
    input order (the payload of a [Document], a raw string as it is), the
    query, the configured model and [top_n], [return_documents] set, and the
    configured truncation under [truncate]; on a non-empty input this is the
    only request [compress_documents] issues. *)
Theorem compress_documents_request documents query st :
  (∀ raw : list str_or_doc,
     ∃ texts,
       Forall2 (λ doc text, match doc with
                            | IsStr s => text = s
                            | IsDoc d => text = page_content d
                            end) raw texts ∧
       st_calls (_rerank raw query st).2 = st_calls st ++
         [ {| req_model := model (st_self st);
              req_query := query;
              req_documents := texts;
              req_top_n := top_n (st_self st);
              req_return_documents := true;
              req_parameters := {[ "truncate" := truncation (st_self st) ]} |} ] ∧
       st_self (_rerank raw query st).2 = st_self st ∧
       st_heap (_rerank raw query st).2 = st_heap st) ∧
  (documents ≠ [] →
   ∀ r st', compress_documents documents query st = (r, st') →
     st_calls st' = st_calls st ++
       [ {| req_model := model (st_self st);
            req_query := query;
            req_documents := page_content <$> documents;
            req_top_n := top_n (st_self st);
            req_return_documents := true;
            req_parameters := {[ "truncate" := truncation (st_self st) ]} |} ]).
Proof.
  split.
  { intros raw. exists (text_of <$> raw). split; [|done].
    induction raw as [|[s|d] raw IH]; constructor; done. }
  intros Hne r st' Hrun.
  rewrite compress_documents_nonempty in Hrun by done.
  assert (Hreq : rerank_request (st_self st) (IsDoc <$> documents) query =
    {| req_model := model (st_self st);
       req_query := query;
       req_documents := page_content <$> documents;
       req_top_n := top_n (st_self st);
       req_return_documents := true;
       req_parameters := {[ "truncate" := truncation (st_self st) ]} |}).
  { unfold rerank_request. by rewrite <- list_fmap_compose. }
  rewrite Hreq in Hrun.
  destruct (client _ _) as [results|e].
  - apply for_each_frame in Hrun as [h' ->]. done.
  - by inversion Hrun.
Qed.

(** C9.  The reported index is used without validation: when every index
    is a position of the input the call returns, and when some index is at
    least the input length it raises [IndexError]. *)
Theorem compress_documents_index documents query st results :
  wf_input (st_heap st) documents → documents ≠ [] →
  client (st_self st) (rerank_request (st_self st) (IsDoc <$> documents) query) = Ok results →
  (Forall (λ res, 0 ≤ index res < Z.of_nat (length documents)) (data results) →
   ∃ out st', compress_documents documents query st = (Ok out, st')) ∧
  (Exists (λ res, Z.of_nat (length documents) ≤ index res) (data results) →
   ∃ st', compress_documents documents query st = (Raise IndexError, st')).
Proof.
  intros Hwf Hne Hclient. rewrite compress_documents_nonempty, Hclient by done.
  split; intros Hidx.
  - destruct (for_each_spec _ _ Hwf (data results) [] (log_call
      (rerank_request (st_self st) (IsDoc <$> documents) query) st))
      as (new & h' & Hrun & _); [done| |by eauto].
    eapply Forall_impl; [exact Hidx|]. intros res Hres. by apply py_lookup_nonneg.
  - destruct (for_each_index_error _ _ Hwf (data results) [] (log_call
      (rerank_request (st_self st) (IsDoc <$> documents) query) st))
      as (h' & Hrun & _); [done| |by eauto].
    eapply Exists_impl; [exact Hidx|]. intros res Hres. by apply py_lookup_too_large.
Qed.

(** C10.  When the metadata of an input document already has a
    [relevance_score], the output document carries the newly rounded score
    under that key instead; the input dictionary keeps its own value. *)
Theorem compress_documents_overwrites_score documents query st results out st'
    i res d src old :
  wf_input (st_heap st) documents → documents ≠ [] →
  client (st_self st) (rerank_request (st_self st) (IsDoc <$> documents) query) = Ok results →
  compress_documents documents query st = (Ok out, st') →
  data results !! i = Some res →
  py_lookup documents (index res) = Some d →
  st_heap st !! metadata d = Some (ODict src) →
  src !! "relevance_score" = Some old →
  ∃ d' dst,
    out !! i = Some d' ∧
    st_heap st' !! metadata d' = Some (ODict dst) ∧
    dst !! "relevance_score" = Some (VFloat (py_round (score res) 4)) ∧
    st_heap st' !! metadata d = Some (ODict src).
Proof.
  intros Hwf Hne Hclient Hrun Hi Hd Hsrc Hold.
  destruct (compress_documents_ok _ _ _ _ _ _ Hwf Hne Hclient Hrun) as [Hsub Hall].
  destruct (Forall2_lookup_l _ _ _ _ _ Hall Hi) as (d' & Hd' & d2 & Hd2 & Hb).
  destruct Hb as (_ & _ & memo & y & dcopy & _ & _ & _ & Hdst & _).
  exists d', (<["relevance_score" := VFloat (py_round (score res) 4)]> dcopy).
  split; [done|]. split; [done|]. split; [apply lookup_insert_eq|].
  by eapply lookup_weaken.
Qed.

Lemma wf_inputb_sound h documents : wf_inputb h documents = true → wf_input h documents.
Proof.
  unfold wf_inputb. intros [Hc Hd]%andb_true_iff. split.
  - intros l o v Hl Hv. unfold closedb in Hc. rewrite forallb_forall in Hc.
    specialize (Hc (l, o)). simpl in Hc.
    rewrite forallb_forall in Hc.
    assert (Hin : v ∈ obj_vals o).
    { destruct o as [xs|d]; simpl in *; [done|]. destruct Hv as [k Hk].
      apply list_elem_of_fmap. exists (k, v). split; [done|].
      by apply elem_of_map_to_list. }
    specialize (Hc ltac:(apply list_elem_of_In; by apply elem_of_map_to_list) v
                   ltac:(by apply list_elem_of_In)).
    destruct v; simpl in *; try done.
    apply bool_decide_eq_true in Hc. by apply elem_of_dom.
  - apply Forall_forall. intros d Hin. rewrite forallb_forall in Hd.
    specialize (Hd d ltac:(by apply list_elem_of_In)). unfold is_dictb in Hd.
    destruct (h !! metadata d) as [[xs|m]|]; try done. eauto.
Qed.

Lemma ok_eta {A} (x : result A * state) (default : A) :
  is_ok x.1 = true → x = (Ok (returned x.1 default), x.2).
Proof. by destruct x as [[a|e] st]. Qed.

End Compress.

(** ** Further properties of the compressor *)

Section Further.
Context `{PyRound}.

(** *** Where deepcopy allocates *)

Lemma copy_loop_dom {K} rec (put : K → val → obj → obj) y :
  (∀ x memo h x' memo' h',
     rec x (memo, h) = Some (x', (memo', h')) →
     memo ⊆ memo' ∧ ∀ l, l ∈ dom h' → l ∈ dom h ∨ ∃ l0, memo' !! l0 = Some l) →
  ∀ items memo h memo' h',
    copy_loop rec y put items (memo, h) = Some (memo', h') →
    memo ⊆ memo' ∧ ∀ l, l ∈ dom h' → l ∈ dom h ∨ ∃ l0, memo' !! l0 = Some l.
Proof.
  intros Hrec. induction items as [|[k a] rest IH]; intros memo h memo' h' Hrun; simpl in Hrun.
  - injection Hrun as <- <-. split; [done|]. by left.
  - destruct (rec a (memo, h)) as [[a' [memo1 h1]]|] eqn:Ha; [|done].
    destruct (Hrec _ _ _ _ _ _ Ha) as [Hsub1 Hdom1].
    destruct (IH _ _ _ _ Hrun) as [Hsub' Hdom'].
    split; [by etrans|]. intros l Hl.
    destruct (Hdom' l Hl) as [Hl1|Hl1]; [|by right].
    rewrite dom_alter_L in Hl1.
    destruct (Hdom1 l Hl1) as [?|[l0 Hl0]]; [by left|].
    right. exists l0. by eapply lookup_weaken.
Qed.

Lemma deepcopy_rec_dom fuel : ∀ x memo h x' memo' h',
  deepcopy_rec fuel x (memo, h) = Some (x', (memo', h')) →
  memo ⊆ memo' ∧ ∀ l, l ∈ dom h' → l ∈ dom h ∨ ∃ l0, memo' !! l0 = Some l.
Proof.
  induction fuel as [|fuel IH]; intros x memo h x' memo' h' Hrun.
  all: destruct x as [| | | | |l]; simpl in Hrun;
    try (injection Hrun as <- <- <-; split; [done|]; by left).
  all: destruct (memo !! l) as [y|] eqn:Hl;
    try (injection Hrun as <- <- <-; split; [done|]; by left); try done.
  assert (Hfin : ∀ memo1 h1 o,
    memo1 = <[l := fresh (dom h)]> memo → h1 = <[fresh (dom h) := o]> h →
    (memo1 ⊆ memo' ∧ ∀ l1, l1 ∈ dom h' → l1 ∈ dom h1 ∨ ∃ l0, memo' !! l0 = Some l1) →
    memo ⊆ memo' ∧ ∀ l1, l1 ∈ dom h' → l1 ∈ dom h ∨ ∃ l0, memo' !! l0 = Some l1).
  { intros memo1 h1 o -> -> [Hsub Hdom]. split.
    - etrans; [|exact Hsub]. by apply insert_subseteq.
    - intros l1 Hl1. destruct (Hdom l1 Hl1) as [Hin|?]; [|by right].
      rewrite dom_insert_L in Hin. apply elem_of_union in Hin as [->%elem_of_singleton|?];
        [|by left].
      right. exists l. eapply lookup_weaken; [|exact Hsub]. apply lookup_insert_eq. }
  destruct (h !! l) as [[xs|d]|]; [| |done].
  - destruct (copy_loop _ _ _ _ _) as [[memo2 h2]|] eqn:Hloop; [|done].
    simpl in Hrun. injection Hrun as <- <- <-.
    eapply Hfin; [done|done|]. eapply copy_loop_dom; [exact IH|exact Hloop].
  - destruct (copy_loop _ _ _ _ _) as [[memo2 h2]|] eqn:Hloop; [|done].
    simpl in Hrun. injection Hrun as <- <- <-.
    eapply Hfin; [done|done|]. eapply copy_loop_dom; [exact IH|exact Hloop].
Qed.

(** *** One step of the loop, relative to the store it starts from *)

Lemma val_in_mono (D D' : gset loc) (v : val) : D ⊆ D' → val_in D v → val_in D' v.
Proof. intros HD. destruct v; simpl; auto. Qed.

Lemma copy_result_step documents compressed res d st :
  wf_input (st_heap st) documents →
  py_lookup documents (index res) = Some d →
  ∃ d' h',
    copy_result documents compressed res st = (Ok (compressed ++ [d']), set_heap h' st) ∧
    st_heap st ⊆ h' ∧ closed h' ∧
    built_from (st_heap st) h' d res d' ∧
    (∀ h2 l, h' ⊆ h2 → reachable h2 (metadata d') l →
       (l ∉ dom (st_heap st)) ∧ l ∈ dom h').
Proof.
  intros [Hcl Hdocs] Hd. set (h := st_heap st) in *.
  assert (Hm : ∃ m, h !! metadata d = Some (ODict m)).
  { rewrite Forall_forall in Hdocs. apply Hdocs. by eapply py_lookup_elem_of. }
  destruct Hm as [m Hm].
  destruct (deepcopy_top h h (metadata d) Hcl) as
    (y & memo & h1 & Hrun & Hh1 & Hy & Hfresh & Hc); [done|apply elem_of_dom; eauto|].
  destruct (deepcopy_rec_dom _ _ _ _ _ _ _ Hrun) as [_ Hdom].
  destruct (Hc _ _ Hy) as (Hy0 & o & o' & Ho & Ho' & Hcp).
  assert (o = ODict m) as -> by congruence.
  destruct o' as [xs|dcopy]; [done|].
  set (x := py_round (score res) 4).
  set (y2 := fresh (dom h1)).
  assert (Hy2 : h1 !! y2 = None) by (apply not_elem_of_dom, is_fresh).
  assert (Hy2h : h !! y2 = None) by (by eapply lookup_weaken_None).
  set (h' := <[y2 := ODict (<["relevance_score" := VFloat x]> dcopy)]> h1).
  assert (Hh1' : h1 ⊆ h') by (by apply insert_subseteq).
  assert (Hdomh' : dom h1 ⊆ dom h') by (by apply subseteq_dom).
  assert (Htarget : ∀ l0 z, memo !! l0 = Some z → z ∈ dom h1).
  { intros l0 z Hz. destruct (Hc _ _ Hz) as (_ & ? & ? & _ & ? & _). apply elem_of_dom. eauto. }
  assert (Hrefs : ∀ o0 o1 v, obj_copied memo o0 o1 → obj_has o1 v → val_in (dom h') v).
  { intros o0 o1 v Hcp1 Hv. destruct v as [| | | | |z]; simpl; try done.
    destruct (obj_copied_refs _ _ _ _ Hcp1 Hv) as [l0 Hl0].
    apply Hdomh'. by eapply Htarget. }
  exists {| page_content := page_content d; metadata := y2 |}, h'.
  split; [|split; [|split; [|split]]].
  - unfold copy_result, bind, py_getitem, deepcopy, Document_init, dict_setitem, ret.
    rewrite Hd. fold h. rewrite Hrun. simpl. rewrite Ho'. simpl. fold y2.
    rewrite lookup_insert_eq. by rewrite insert_insert_eq.
  - by apply insert_subseteq_r.
  - intros l1 o1 v Hl1 Hv. destruct (decide (l1 = y2)) as [->|Hne].
    + unfold h' in Hl1. rewrite lookup_insert_eq in Hl1. injection Hl1 as <-.
      destruct Hv as [k Hk]. destruct (decide (k = "relevance_score")) as [->|Hk'].
      * rewrite lookup_insert_eq in Hk. by injection Hk as <-.
      * rewrite lookup_insert_ne in Hk by done.
        eapply (Hrefs _ (ODict dcopy)); [exact Hcp|]. by exists k.
    + unfold h' in Hl1. rewrite lookup_insert_ne in Hl1 by done.
      destruct (Hdom l1) as [Hin|[l0 Hl0]]; [apply elem_of_dom; eauto| |].
      * apply elem_of_dom in Hin as [o0 Ho0].
        assert (o0 = o1) as -> by (eapply lookup_weaken in Ho0; [|exact Hh1]; congruence).
        eapply val_in_mono; [|by eapply Hcl].
        etrans; [|exact Hdomh']. by apply subseteq_dom.
      * destruct (Hc _ _ Hl0) as (_ & o0 & o2 & _ & Ho2 & Hcp2).
        assert (o2 = o1) as -> by congruence. by eapply Hrefs.
  - split; [done|]. simpl. split; [by apply not_elem_of_dom|].
    exists memo, y, dcopy. split; [done|].
    split; [intros ->; congruence|].
    split; [by eapply lookup_weaken|].
    split; [apply lookup_insert_eq|].
    by eapply is_deepcopy_mono.
  - intros h2 l Hh2 Hreach. simpl in Hreach.
    destruct (copy_reachable h h2 memo (metadata d) y dcopy y2 x l) as [->|[l0 Hl0]];
      [| | | |done| |].
    + eapply is_deepcopy_mono; [|exact Hc]. by etrans.
    + done.
    + eapply lookup_weaken; [|exact Hh2]. by eapply lookup_weaken.
    + eapply lookup_weaken; [|exact Hh2]. apply lookup_insert_eq.
    + split; [by apply not_elem_of_dom|]. apply elem_of_dom. unfold h'.
      rewrite lookup_insert_eq. eauto.
    + split; [by apply (Hc l0 l)|]. apply Hdomh'. by eapply Htarget.
Qed.

(** *** The loop: the store stays closed and the copies are disjoint *)

Lemma for_each_wf documents : ∀ results acc st,
  wf_input (st_heap st) documents →
  ∃ h', st_heap st ⊆ h' ∧ closed h' ∧
    ((∃ new,
        for_each results acc (copy_result documents) st = (Ok (acc ++ new), set_heap h' st) ∧
        Forall (λ d', ∃ m, h' !! metadata d' = Some (ODict m)) new ∧
        Forall (λ d', ∀ l, reachable h' (metadata d') l → l ∉ dom (st_heap st)) new ∧
        disjoint_copies h' new) ∨
     for_each results acc (copy_result documents) st = (Raise IndexError, set_heap h' st)).
Proof.
  induction results as [|res rest IH]; intros acc st Hwf.
  - exists (st_heap st). split; [done|]. split; [apply Hwf|]. left. exists [].
    simpl. rewrite app_nil_r. split; [by destruct st|]. split; [constructor|].
    split; [constructor|]. intros i j di dj l _ Hi. by rewrite lookup_nil in Hi.
  - simpl. unfold bind.
    destruct (py_lookup documents (index res)) as [d|] eqn:Hd.
    + destruct (copy_result_step documents acc res d st Hwf Hd)
        as (d' & h1 & Hbody & Hh1 & Hcl1 & Hb & Hfoot).
      rewrite Hbody.
      assert (Hwf1 : wf_input (st_heap (set_heap h1 st)) documents).
      { split; [done|]. destruct Hwf as [_ Hdocs]. eapply Forall_impl; [exact Hdocs|].
        intros d0 [m Hm]. exists m. by eapply lookup_weaken. }
      destruct (IH (acc ++ [d']) (set_heap h1 st) Hwf1)
        as (h' & Hh' & Hcl' & [(new & Hrun & Hdict & Hfresh & Hdisj)|Hrun]).
      * exists h'. split; [by etrans|]. split; [done|]. left. exists (d' :: new).
        rewrite Hrun, <- app_assoc. split; [done|]. simpl in Hh'.
        destruct Hb as (_ & _ & memo & y & dcopy & _ & _ & _ & Hy & _).
        split; [|split].
        -- constructor; [|done]. eexists. by eapply lookup_weaken.
        -- constructor.
           ++ intros l Hl. by apply (Hfoot h' l).
           ++ eapply Forall_impl; [exact Hfresh|]. intros d0 Hd0 l Hl Hin.
              apply (Hd0 l Hl). simpl. apply subseteq_dom in Hh1. by apply Hh1.
        -- intros i j di dj l Hij Hi Hj Hri Hrj.
           destruct j as [|j]; [lia|]. simpl in Hj.
           destruct i as [|i]; simpl in Hi.
           ++ injection Hi as <-.
              rewrite Forall_forall in Hfresh.
              apply (Hfresh dj (list_elem_of_lookup_2 _ _ _ Hj) l Hrj). simpl.
              by apply (Hfoot h' l).
           ++ apply (Hdisj i j di dj l); [lia|done..].
      * exists h'. split; [by etrans|]. split; [done|]. by right.
    + exists (st_heap st). split; [done|]. split; [apply Hwf|]. right.
      unfold copy_result, bind, py_getitem, raise. rewrite Hd. by destruct st.
Qed.

(** *** Properties of the compressor beyond the specification *)

(** X1.  A negative index counts from the end: when every index lies in
    [-len, len) the call returns and the [i]-th output document has the text
    of the input document at position [index mod len]; an index below [-len]
    raises [IndexError]. *)
Theorem compress_documents_negative_index documents query st results :
  wf_input (st_heap st) documents → documents ≠ [] →
  client (st_self st) (rerank_request (st_self st) (IsDoc <$> documents) query) = Ok results →
  (Forall (λ res, - Z.of_nat (length documents) ≤ index res < Z.of_nat (length documents))
          (data results) →
   ∃ out st',
     compress_documents documents query st = (Ok out, st') ∧
     ∀ i res, data results !! i = Some res →
       ∃ d d',
         documents !! Z.to_nat (index res `mod` Z.of_nat (length documents)) = Some d ∧
         out !! i = Some d' ∧ page_content d' = page_content d) ∧
  (Exists (λ res, index res < - Z.of_nat (length documents)) (data results) →
   ∃ st', compress_documents documents query st = (Raise IndexError, st')).
Proof.
  intros Hwf Hne Hclient. rewrite compress_documents_nonempty, Hclient by done.
  split; intros Hidx.
  - destruct (for_each_spec _ _ Hwf (data results) [] (log_call
      (rerank_request (st_self st) (IsDoc <$> documents) query) st))
      as (new & h' & Hrun & _); [done| |].
    { eapply Forall_impl; [exact Hidx|]. intros res Hres. cbv beta in Hres.
      unfold py_lookup. rewrite py_position_wrap by done.
      change (is_Some (documents !! Z.to_nat (index res `mod` Z.of_nat (length documents)))).
      apply lookup_lt_is_Some.
      pose proof (Z.mod_pos_bound (index res) (Z.of_nat (length documents))). lia. }
    exists new, (set_heap h' (log_call
      (rerank_request (st_self st) (IsDoc <$> documents) query) st)).
    split; [done|]. intros i res Hi.
    apply for_each_ok in Hrun as (new' & Heq & Hnew). simpl in Heq. subst new'.
    destruct (Forall2_lookup_l _ _ _ _ _ Hnew Hi) as (d' & Hd' & d & Hd & Hpc).
    exists d, d'. split; [|done].
    rewrite Forall_forall in Hidx.
    unfold py_lookup in Hd. rewrite py_position_wrap in Hd; [done|].
    apply Hidx. by eapply list_elem_of_lookup_2.
  - destruct (for_each_index_error _ _ Hwf (data results) [] (log_call
      (rerank_request (st_self st) (IsDoc <$> documents) query) st))
      as (h' & Hrun & _); [done| |by eauto].
    eapply Exists_impl; [exact Hidx|]. intros res Hres. unfold py_lookup.
    by rewrite py_position_too_small.
Qed.

(** X2.  Whatever the input and the outcome, [compress_documents] leaves
    the fields of the compressor (client, model, top_n, truncation) as they
    were. *)
Theorem compress_documents_keeps_self documents query st r st' :
  compress_documents documents query st = (r, st') →
  st_self st' = st_self st.
Proof.
  intros Hrun. destruct documents as [|d0 ds]; [by inversion Hrun|].
  rewrite compress_documents_nonempty in Hrun by done.
  destruct (client _ _) as [results|e].
  - by apply for_each_frame in Hrun as [h' ->].
  - by inversion Hrun.
Qed.

Lemma compress_documents_wf documents query st r st' :
  wf_input (st_heap st) documents →
  compress_documents documents query st = (r, st') →
  st_heap st ⊆ st_heap st' ∧
  wf_input (st_heap st') documents ∧
  ∀ out, r = Ok out →
    wf_input (st_heap st') out ∧ disjoint_copies (st_heap st') out.
Proof.
  intros Hwf Hrun.
  assert (Hkeep : ∀ h', st_heap st ⊆ h' → closed h' → wf_input h' documents).
  { intros h' Hh' Hcl'. split; [done|]. destruct Hwf as [_ Hdocs].
    eapply Forall_impl; [exact Hdocs|]. intros d0 [m Hm]. exists m. by eapply lookup_weaken. }
  destruct documents as [|d0 ds].
  { inversion Hrun; subst. split; [done|]. split; [done|]. intros out [= <-].
    split; [split; [apply Hwf|constructor]|].
    intros i j di dj l _ Hi. by rewrite lookup_nil in Hi. }
  rewrite compress_documents_nonempty in Hrun by done.
  destruct (client _ _) as [results|e].
  - destruct (for_each_wf (d0 :: ds) (data results) [] (log_call
      (rerank_request (st_self st) (IsDoc <$> d0 :: ds) query) st) Hwf)
      as (h' & Hh' & Hcl' & [(new & Hrun' & Hdict & _ & Hdisj)|Hrun']);
      rewrite Hrun in Hrun'; inversion Hrun'; subst; simpl in *.
    + split; [done|]. split; [by apply Hkeep|]. intros out [= <-]. by split.
    + split; [done|]. split; [by apply Hkeep|]. by intros out [=].
  - inversion Hrun; subst. split; [done|]. split; [done|]. by intros out [=].
Qed.

(** X3.  Well-formedness is kept: after the call, in every outcome, the
    store is closed and the input documents still have dictionaries as
    metadata; the documents returned are a well-formed input themselves. *)
Theorem compress_documents_keeps_wf documents query st r st' :
  wf_input (st_heap st) documents →
  compress_documents documents query st = (r, st') →
  wf_input (st_heap st') documents ∧
  ∀ out, r = Ok out → wf_input (st_heap st') out.
Proof.
  intros Hwf Hrun.
  destruct (compress_documents_wf _ _ _ _ _ Hwf Hrun) as (_ & Hdocs & Hout).
  split; [done|]. intros out Hr. by apply Hout.
Qed.

(** X4.  Two documents of the output share nothing, even when the response
    names the same input document twice: their metadata are different
    dictionaries and no object is reachable from both. *)
Theorem compress_documents_outputs_disjoint documents query st out st' i j di dj :
  wf_input (st_heap st) documents →
  compress_documents documents query st = (Ok out, st') →
  i ≠ j → out !! i = Some di → out !! j = Some dj →
  metadata di ≠ metadata dj ∧
  ∀ l, reachable (st_heap st') (metadata di) l → ¬ reachable (st_heap st') (metadata dj) l.
Proof.
  intros Hwf Hrun Hij Hi Hj.
  destruct (compress_documents_wf _ _ _ _ _ Hwf Hrun) as (_ & _ & Hout).
  destruct (Hout out eq_refl) as [_ Hdisj].
  assert (Hsep : ∀ l, reachable (st_heap st') (metadata di) l →
                      ¬ reachable (st_heap st') (metadata dj) l).
  { intros l Hri Hrj. destruct (decide (i < j)%nat).
    - by apply (Hdisj i j di dj l).
    - apply (Hdisj j i dj di l); [lia|done..]. }
  split; [|done]. intros Heq. apply (Hsep (metadata di)); [apply rtc_refl|].
  rewrite Heq. apply rtc_refl.
Qed.

(** X5.  The output of one call can be compressed again: the second call
    returns when its indices name positions of the first output, leaves
    every object of the store after the first call unchanged, and its
    documents carry the score of the second response under
    [relevance_score]. *)
Theorem compress_documents_twice documents query st out st1 query2 results2 :
  wf_input (st_heap st) documents →
  compress_documents documents query st = (Ok out, st1) →
  out ≠ [] →
  client (st_self st) (rerank_request (st_self st) (IsDoc <$> out) query2) = Ok results2 →
  Forall (λ res, is_Some (py_lookup out (index res))) (data results2) →
  ∃ out2 st2,
    compress_documents out query2 st1 = (Ok out2, st2) ∧
    st_heap st1 ⊆ st_heap st2 ∧
    ∀ i res, data results2 !! i = Some res →
      ∃ d1 d2 dst,
        py_lookup out (index res) = Some d1 ∧
        out2 !! i = Some d2 ∧
        page_content d2 = page_content d1 ∧
        st_heap st2 !! metadata d2 = Some (ODict dst) ∧
        dst !! "relevance_score" = Some (VFloat (py_round (score res) 4)).
Proof.
  intros Hwf Hrun Hne Hclient Hvalid.
  destruct (compress_documents_wf _ _ _ _ _ Hwf Hrun) as (_ & _ & Hout).
  destruct (Hout out eq_refl) as [Hwf1 _].
  assert (Hself : st_self st1 = st_self st).
  { destruct documents as [|d0 ds]; [by inversion Hrun|].
    rewrite compress_documents_nonempty in Hrun by done.
    destruct (client _ _) as [results|e]; [|by inversion Hrun].
    by apply for_each_frame in Hrun as [h' ->]. }
  rewrite compress_documents_nonempty, Hself, Hclient by done.
  destruct (for_each_spec _ _ Hwf1 (data results2) [] (log_call
    (rerank_request (st_self st) (IsDoc <$> out) query2) st1))
    as (out2 & h2 & Hrun2 & Hh2 & Hall); [done|done|].
  eexists _, _. split; [exact Hrun2|]. split; [done|].
  intros i res Hi.
  destruct (Forall2_lookup_l _ _ _ _ _ Hall Hi) as (d2 & Hd2 & d1 & Hd1 & Hb).
  destruct Hb as (Hpc & _ & memo & y & dcopy & _ & _ & _ & Hdst & _).
  exists d1, d2, (<["relevance_score" := VFloat (py_round (score res) 4)]> dcopy).
  split; [done|]. split; [done|]. split; [done|]. split; [done|].
  apply lookup_insert_eq.
Qed.

(** X6.  [acompress_documents] on a non-empty input issues exactly the
    request that [_arerank] builds and leaves the compressor's fields and
    the store as they were; an exception of the remote call is its outcome,
    and when the call answers, awaiting the answer of the synchronous
    client raises [TypeError]: no document is returned. *)
Theorem acompress_documents_outcomes documents query st r st' :
  documents ≠ [] →
  acompress_documents documents query st = (r, st') →
  st_calls st' = st_calls st ++ [rerank_request (st_self st) (IsDoc <$> documents) query] ∧
  st_self st' = st_self st ∧
  st_heap st' = st_heap st ∧
  (∀ e, client (st_self st) (rerank_request (st_self st) (IsDoc <$> documents) query) = Raise e →
        r = Raise e) ∧
  (∀ results,
     client (st_self st) (rerank_request (st_self st) (IsDoc <$> documents) query) = Ok results →
     r = Raise TypeError).
Proof.
  intros Hne Hrun. rewrite acompress_documents_nonempty in Hrun by done.
  destruct (client _ _) as [results|e]; inversion Hrun; subst.
  - split; [done|]. split; [done|]. split; [done|]. split; [by intros e [=]|done].
  - split; [done|]. split; [done|]. split; [done|]. split; [by intros e0 [= <-]|].
    by intros results [=].
Qed.

(** X7.  Key by key, apart from [relevance_score]: a key absent from the
    input metadata is absent from the output; an entry that is not a
    container is kept as it is; a container entry becomes a reference to an
    object outside the input store. *)
Theorem compress_documents_metadata_keys documents query st results out st' i res d src :
  wf_input (st_heap st) documents → documents ≠ [] →
  client (st_self st) (rerank_request (st_self st) (IsDoc <$> documents) query) = Ok results →
  compress_documents documents query st = (Ok out, st') →
  data results !! i = Some res →
  py_lookup documents (index res) = Some d →
  st_heap st !! metadata d = Some (ODict src) →
  ∃ d' dst,
    out !! i = Some d' ∧
    st_heap st' !! metadata d' = Some (ODict dst) ∧
    ∀ k, k ≠ "relevance_score" →
      match src !! k with
      | None => dst !! k = None
      | Some (VRef l) => ∃ y, dst !! k = Some (VRef y) ∧ y ∉ dom (st_heap st)
      | Some v => dst !! k = Some v
      end.
Proof.
  intros Hwf Hne Hclient Hrun Hi Hd Hsrc.
  destruct (compress_documents_ok _ _ _ _ _ _ Hwf Hne Hclient Hrun) as [_ Hall].
  destruct (Forall2_lookup_l _ _ _ _ _ Hall Hi) as (d' & Hd' & d2 & Hd2 & Hb).
  assert (d2 = d) as -> by congruence.
  destruct Hb as (_ & _ & memo & y0 & dcopy & Hm & _ & Hy0 & Hdst & Hc).
  destruct (Hc _ _ Hm) as (_ & o & o' & Ho & Ho' & Hcp).
  assert (o' = ODict dcopy) as -> by congruence.
  assert (o = ODict src) as -> by congruence. simpl in Hcp.
  exists d', (<["relevance_score" := VFloat (py_round (score res) 4)]> dcopy).
  split; [done|]. split; [done|]. intros k Hk.
  rewrite lookup_insert_ne by done. specialize (Hcp k).
  destruct (src !! k) as [v|]; inversion Hcp as [? v' Hv|]; subst; [|done].
  destruct v as [| | | | |l]; simpl in Hv; subst; try done.
  destruct Hv as (y & Hy & ->). exists y. split; [done|]. by apply (Hc l y).
Qed.

(** X8.  Construction: when [Pinecone()] raises, so does [__init__];
    otherwise the compressor's client is the one [Pinecone()] made, whatever
    client the caller passed, and the request [compress_documents] sends
    carries the model, [top_n] and truncation given at construction, or
    ["pinecone-rerank-v0"], [5] and ["END"] for those left out; an exception
    of that client is the outcome of the call. *)
Theorem PineconeRerank_init_request data Pinecone_new :
  (∀ e, Pinecone_new = Raise e → PineconeRerank_init data Pinecone_new = Raise e) ∧
  (∀ c, Pinecone_new = Ok c →
     ∃ this,
       PineconeRerank_init data Pinecone_new = Ok this ∧
       client this = c ∧
       ∀ documents query h r st',
         documents ≠ [] →
         compress_documents documents query
           {| st_heap := h; st_self := this; st_calls := [] |} = (r, st') →
         st_calls st' =
           [ {| req_model := default "pinecone-rerank-v0" (data_model data);
                req_query := query;
                req_documents := page_content <$> documents;
                req_top_n := default (Some 5) (data_top_n data);
                req_return_documents := true;
                req_parameters :=
                  {[ "truncate" := default "END" (data_truncation data) ]} |} ] ∧
         ∀ e, c {| req_model := default "pinecone-rerank-v0" (data_model data);
                   req_query := query;
                   req_documents := page_content <$> documents;
                   req_top_n := default (Some 5) (data_top_n data);
                   req_return_documents := true;
                   req_parameters :=
                     {[ "truncate" := default "END" (data_truncation data) ]} |} = Raise e →
              r = Raise e).
Proof.
  split; [by intros e ->|]. intros c ->. eexists. split; [reflexivity|]. split; [done|].
  intros documents query h r st' Hne Hrun.
  rewrite compress_documents_nonempty in Hrun by done.
  unfold rerank_request in Hrun. simpl in Hrun.
  rewrite <- list_fmap_compose in Hrun.
  change (text_of ∘ IsDoc) with page_content in Hrun.
  destruct (c _) as [results|e] eqn:Hc.
  - apply for_each_frame in Hrun as [h' ->]. split; [done|]. by intros e [=].
  - inversion Hrun; subst. split; [done|]. by intros e0 [= <-].
Qed.

End Further.

(** ** The theorems at the concrete instance *)

Example py_position_last : py_position 3 (-1) = Some 2%nat.
Proof. reflexivity. Qed.

Example py_position_outside : py_position 3 3 = None ∧ py_position 3 (-4) = None.
Proof. split; reflexivity. Qed.

Example Q_round_third : Q_round (1 # 3) 4 = (3333 # 10000)%Q.
Proof. vm_compute. reflexivity. Qed.

Example Q_round_half_even :
  Q_round (25 # 100000) 4 = (1 # 5000)%Q ∧ Q_round (35 # 100000) 4 = (1 # 2500)%Q.
Proof. vm_compute. split; reflexivity. Qed.

(** The run on [ex_documents]: "beta" first, as the response orders them. *)
Example ex_out_value :
  ex_out = [ex_beta_copy; {| page_content := "alpha"; metadata := 8%positive |}].
Proof. vm_compute. reflexivity. Qed.

(** The old score 7 of "beta" is replaced in the document's dictionary and
    kept in the input (and in the deep copy the dictionary was made from). *)
Example ex_final_beta :
  st_heap ex_final !! 5%positive
    = Some (ODict {[ "relevance_score" := VFloat (9877 # 10000)%Q ]}) ∧
  st_heap ex_final !! 4%positive
    = Some (ODict {[ "relevance_score" := VInt 7 ]}) ∧
  st_heap ex_final !! 3%positive
    = Some (ODict {[ "relevance_score" := VInt 7 ]}).
Proof. vm_compute. repeat split; reflexivity. Qed.

(** The cyclic metadata of "alpha" is copied to a cycle of fresh objects;
    the document's own dictionary holds the items of the copy and the score. *)
Example ex_final_alpha :
  st_heap ex_final !! 8%positive
    = Some (ODict {[ "source" := VStr "a.txt"; "tags" := VRef 7%positive;
                     "relevance_score" := VFloat (3333 # 10000)%Q ]}) ∧
  st_heap ex_final !! 6%positive
    = Some (ODict {[ "source" := VStr "a.txt"; "tags" := VRef 7%positive ]}) ∧
  st_heap ex_final !! 7%positive = Some (OList [VStr "x"; VRef 6%positive]) ∧
  st_heap ex_final !! 1%positive = ex_heap !! 1%positive ∧
  st_heap ex_final !! 2%positive = ex_heap !! 2%positive.
Proof. vm_compute. repeat split; reflexivity. Qed.

(** One input document, [top_n = 1], and two documents returned. *)
Example ex_dup_out_value :
  ex_dup_out = [ {| page_content := "alpha"; metadata := 6%positive |};
                 {| page_content := "alpha"; metadata := 9%positive |} ].
Proof. vm_compute. reflexivity. Qed.

Lemma ex_run : compress_documents ex_documents "q" ex_ok = (Ok ex_out, ex_final).
Proof. apply ok_eta. vm_compute. reflexivity. Qed.

Lemma ex_dup_run : compress_documents [ex_alpha] "q" ex_dup = (Ok ex_dup_out, ex_dup_final).
Proof. apply ok_eta. vm_compute. reflexivity. Qed.

Lemma ex_wf c n : wf_input (st_heap (ex_state c n)) ex_documents.
Proof. apply wf_inputb_sound. vm_compute. reflexivity. Qed.

Lemma ex_documents_nonempty : ex_documents ≠ [].
Proof. discriminate. Qed.

Lemma compress_documents_order_witness :
  length ex_out = length (data ex_results) ∧
  ∀ i res, data ex_results !! i = Some res →
    - Z.of_nat (length ex_documents) ≤ index res < Z.of_nat (length ex_documents) ∧
    ∃ d d',
      ex_documents !! Z.to_nat (index res `mod` Z.of_nat (length ex_documents)) = Some d ∧
      (0 ≤ index res → ex_documents !! Z.to_nat (index res) = Some d) ∧
      ex_out !! i = Some d' ∧
      page_content d' = page_content d ∧
      (wf_input (st_heap ex_ok) ex_documents →
       built_from (st_heap ex_ok) (st_heap ex_final) d res d').
Proof.
  apply (proj2 (compress_documents_order ex_documents "q" ex_ok ex_results
                  ex_documents_nonempty eq_refl) ex_out ex_final).
  exact ex_run.
Defined.


Lemma compress_documents_length_counterexample :
  ¬ (∀ (documents : list Document) (query : string) (st : state) out st',
       compress_documents documents query st = (Ok out, st') →
       Z.of_nat (length out) ≤ length_limit (top_n (st_self st)) (length documents)).
Proof.
  intros Hbound. specialize (Hbound [ex_alpha] "q" ex_dup _ _ ex_dup_run).
  assert (Hlen : length ex_dup_out = 2%nat) by (vm_compute; reflexivity).
  rewrite Hlen in Hbound. simpl in Hbound. lia.
Qed.

Lemma compress_documents_length_witness :
  length ex_out = length (data ex_results) ∧
  (NoDup (positions ex_documents (data ex_results)) →
   (length ex_out ≤ length ex_documents)%nat) ∧
  (∀ n, top_n (st_self ex_ok) = Some n →
        Z.of_nat (length (data ex_results)) ≤ n → Z.of_nat (length ex_out) ≤ n).
Proof.
  apply (compress_documents_length ex_documents "q" ex_ok ex_results ex_out ex_final).
  - exact ex_documents_nonempty.
  - reflexivity.
  - exact ex_run.
Defined.

Lemma compress_documents_remote_error_witness :
  ∃ st',
    compress_documents ex_documents "q" ex_fail
      = (Raise (OtherError "PineconeApiException"), st') ∧
    st_self st' = st_self ex_fail ∧
    st_heap st' = st_heap ex_fail ∧
    st_calls st' = st_calls ex_fail ++
      [rerank_request (st_self ex_fail) (IsDoc <$> ex_documents) "q"].
Proof.
  apply (compress_documents_remote_error ex_documents "q" ex_fail).
  - exact ex_documents_nonempty.
  - reflexivity.
Defined.

Lemma acompress_documents_diverges_witness :
  (∃ out st',
     compress_documents ex_documents "q" ex_ok = (Ok out, st') ∧
     length out = length (data ex_results)) ∧
  acompress_documents ex_documents "q" ex_ok =
    (Raise TypeError,
     log_call (rerank_request (st_self ex_ok) (IsDoc <$> ex_documents) "q") ex_ok).
Proof.
  apply (acompress_documents_diverges ex_documents "q" ex_ok ex_results
           (ex_wf _ _) ex_documents_nonempty eq_refl).
  repeat constructor; simpl; lia.
Defined.

Lemma compress_documents_frame_witness :
  st_heap ex_ok ⊆ st_heap ex_final ∧
  ∀ out d' l, Ok ex_out = Ok out → d' ∈ out →
    reachable (st_heap ex_final) (metadata d') l →
    (l ∉ dom (st_heap ex_ok)) ∧
    ∀ o, st_heap ex_ok ⊆ <[l := o]> (st_heap ex_final).
Proof.
  apply (compress_documents_frame ex_documents "q" ex_ok (Ok ex_out) ex_final).
  - apply ex_wf.
  - exact ex_run.
Defined.

Lemma compress_documents_request_witness :
  st_calls (_rerank [IsStr "raw text"; IsDoc ex_alpha] "q" ex_ok).2 =
    [ {| req_model := "pinecone-rerank-v0";
         req_query := "q";
         req_documents := ["raw text"; "alpha"];
         req_top_n := Some 5;
         req_return_documents := true;
         req_parameters := {[ "truncate" := "END" ]} |} ] ∧
  st_calls ex_final = st_calls ex_ok ++
    [ {| req_model := "pinecone-rerank-v0";
         req_query := "q";
         req_documents := ["alpha"; "beta"];
         req_top_n := Some 5;
         req_return_documents := true;
         req_parameters := {[ "truncate" := "END" ]} |} ].
Proof.
  split.
  - destruct (proj1 (compress_documents_request ex_documents "q" ex_ok)
                [IsStr "raw text"; IsDoc ex_alpha]) as (texts & Htexts & Hcalls & _).
    apply Forall2_cons_inv_l in Htexts as (t1 & rest1 & -> & Htexts & ->).
    apply Forall2_cons_inv_l in Htexts as (t2 & rest2 & -> & Htexts & ->).
    apply Forall2_nil_inv_l in Htexts as ->.
    exact Hcalls.
  - apply (proj2 (compress_documents_request ex_documents "q" ex_ok)
             ex_documents_nonempty (Ok ex_out) ex_final).
    exact ex_run.
Defined.

Lemma compress_documents_index_witness :
  (∃ out st', compress_documents ex_documents "q" ex_ok = (Ok out, st')) ∧
  (∃ st', compress_documents ex_documents "q" ex_bad = (Raise IndexError, st')).
Proof.
  split.
  - apply (compress_documents_index ex_documents "q" ex_ok ex_results).
    + apply ex_wf.
    + exact ex_documents_nonempty.
    + reflexivity.
    + repeat constructor; simpl; lia.
  - apply (compress_documents_index ex_documents "q" ex_bad ex_past_end).
    + apply ex_wf.
    + exact ex_documents_nonempty.
    + reflexivity.
    + apply Exists_cons_tl, Exists_cons_hd. simpl. lia.
Defined.

Lemma compress_documents_overwrites_score_witness :
  ∃ d' dst,
    ex_out !! 0%nat = Some d' ∧
    st_heap ex_final !! metadata d' = Some (ODict dst) ∧
    dst !! "relevance_score" = Some (VFloat (py_round (score ex_hit_beta) 4)) ∧
    st_heap ex_final !! metadata ex_beta = Some (ODict {[ "relevance_score" := VInt 7 ]}).
Proof.
  apply (compress_documents_overwrites_score ex_documents "q" ex_ok ex_results
           ex_out ex_final 0%nat ex_hit_beta ex_beta {[ "relevance_score" := VInt 7 ]} (VInt 7)).
  - apply ex_wf.
  - exact ex_documents_nonempty.
  - reflexivity.
  - exact ex_run.
  - reflexivity.
  - reflexivity.
  - reflexivity.
  - reflexivity.
Defined.

(** ** The further properties at the concrete instance *)

Lemma ex_wf_alpha c n : wf_input (st_heap (ex_state c n)) [ex_alpha].
Proof. apply wf_inputb_sound. vm_compute. reflexivity. Qed.

Lemma ex_out_nonempty : ex_out ≠ [].
Proof. rewrite ex_out_value. discriminate. Qed.

Lemma compress_documents_negative_index_witness :
  (∃ out st',
     compress_documents ex_documents "q" ex_neg = (Ok out, st') ∧
     ∀ i res, data ex_from_end !! i = Some res →
       ∃ d d',
         ex_documents !! Z.to_nat (index res `mod` Z.of_nat (length ex_documents)) = Some d ∧
         out !! i = Some d' ∧ page_content d' = page_content d) ∧
  (∃ st', compress_documents ex_documents "q" ex_low = (Raise IndexError, st')).
Proof.
  split.
  - apply (compress_documents_negative_index ex_documents "q" ex_neg ex_from_end
             (ex_wf _ _) ex_documents_nonempty eq_refl).
    repeat constructor; simpl; lia.
  - apply (compress_documents_negative_index ex_documents "q" ex_low ex_below
             (ex_wf _ _) ex_documents_nonempty eq_refl).
    apply Exists_cons_hd. simpl. lia.
Defined.

Lemma compress_documents_keeps_self_witness : st_self ex_final = st_self ex_ok.
Proof.
  apply (compress_documents_keeps_self ex_documents "q" ex_ok (Ok ex_out) ex_final).
  exact ex_run.
Defined.

Lemma compress_documents_keeps_wf_witness :
  wf_input (st_heap ex_final) ex_documents ∧
  ∀ out, Ok ex_out = Ok out → wf_input (st_heap ex_final) out.
Proof.
  apply (compress_documents_keeps_wf ex_documents "q" ex_ok (Ok ex_out) ex_final).
  - apply ex_wf.
  - exact ex_run.
Defined.

Lemma compress_documents_outputs_disjoint_witness :
  6%positive ≠ 9%positive ∧
  ∀ l, reachable (st_heap ex_dup_final) 6%positive l →
       ¬ reachable (st_heap ex_dup_final) 9%positive l.
Proof.
  apply (compress_documents_outputs_disjoint [ex_alpha] "q" ex_dup ex_dup_out ex_dup_final
           0%nat 1%nat {| page_content := "alpha"; metadata := 6%positive |}
           {| page_content := "alpha"; metadata := 9%positive |}).
  - apply ex_wf_alpha.
  - exact ex_dup_run.
  - lia.
  - rewrite ex_dup_out_value. reflexivity.
  - rewrite ex_dup_out_value. reflexivity.
Defined.

Lemma compress_documents_twice_witness :
  ∃ out2 st2,
    compress_documents ex_out "again" ex_final = (Ok out2, st2) ∧
    st_heap ex_final ⊆ st_heap st2 ∧
    ∀ i res, data ex_results !! i = Some res →
      ∃ d1 d2 dst,
        py_lookup ex_out (index res) = Some d1 ∧
        out2 !! i = Some d2 ∧
        page_content d2 = page_content d1 ∧
        st_heap st2 !! metadata d2 = Some (ODict dst) ∧
        dst !! "relevance_score" = Some (VFloat (py_round (score res) 4)).
Proof.
  apply (compress_documents_twice ex_documents "q" ex_ok ex_out ex_final "again" ex_results).
  - apply ex_wf.
  - exact ex_run.
  - exact ex_out_nonempty.
  - reflexivity.
  - rewrite ex_out_value. repeat constructor; vm_compute; eauto.
Defined.

Lemma acompress_documents_outcomes_witness :
  (acompress_documents ex_documents "q" ex_fail).1
    = Raise (OtherError "PineconeApiException") ∧
  (acompress_documents ex_documents "q" ex_ok).1 = Raise TypeError ∧
  st_heap (acompress_documents ex_documents "q" ex_ok).2 = st_heap ex_ok.
Proof.
  split; [|split].
  - apply (proj1 (proj2 (proj2 (proj2 (acompress_documents_outcomes ex_documents "q"
             ex_fail _ _ ex_documents_nonempty (surjective_pairing _)))))).
    reflexivity.
  - apply (proj2 (proj2 (proj2 (proj2 (acompress_documents_outcomes ex_documents "q"
             ex_ok _ _ ex_documents_nonempty (surjective_pairing _))))) ex_results).
    reflexivity.
  - apply (proj1 (proj2 (proj2 (acompress_documents_outcomes ex_documents "q"
             ex_ok _ _ ex_documents_nonempty (surjective_pairing _))))).
Defined.

Lemma compress_documents_metadata_keys_witness :
  ∃ d' dst,
    ex_out !! 1%nat = Some d' ∧
    st_heap ex_final !! metadata d' = Some (ODict dst) ∧
    ∀ k, k ≠ "relevance_score" →
      match ({[ "source" := VStr "a.txt"; "tags" := VRef 2%positive ]}
               : gmap string val) !! k with
      | None => dst !! k = None
      | Some (VRef l) => ∃ y, dst !! k = Some (VRef y) ∧ y ∉ dom (st_heap ex_ok)
      | Some v => dst !! k = Some v
      end.
Proof.
  apply (compress_documents_metadata_keys ex_documents "q" ex_ok ex_results ex_out ex_final
           1%nat ex_hit_alpha ex_alpha).
  - apply ex_wf.
  - exact ex_documents_nonempty.
  - reflexivity.
  - exact ex_run.
  - reflexivity.
  - reflexivity.
  - reflexivity.
Defined.

Lemma PineconeRerank_init_request_witness :
  ∃ this,
    PineconeRerank_init ex_data (Ok (λ _, Ok ex_results)) = Ok this ∧
    client this = (λ _, Ok ex_results) ∧
    top_n this = None ∧
    model this = "pinecone-rerank-v0" ∧
    truncation this = "END".
Proof.
  destruct (proj2 (PineconeRerank_init_request ex_data (Ok (λ _, Ok ex_results)))
              (λ _, Ok ex_results) eq_refl) as (this & Hinit & Hclient & _).
  exists this. split; [exact Hinit|]. split; [exact Hclient|].
  injection Hinit as <-. repeat split.
Defined.
